(** * basicOCR: the scan pipeline of the [App] component

    A shallow embedding of the handlers of the React Native component
    [App] (src/App.js and its later revision src/unnamed/part_001):
    acquisition ([handleTakePhoto], [handleSelectFromGallery]),
    processing ([processImageAndLocation]) and the four result actions
    ([handleSavePhoto], [handleShareText], [handleCopyText],
    [handleSaveTextToFile]).

    JavaScript strings are sequences of UTF-16 code units; the handlers
    are asynchronous functions, embedded as programs over the calls they
    make to their collaborators (permissions, image picker, position
    service, text recogniser, camera roll, share sheet, clipboard, file
    system), whose answers are inputs.  A handler is a closure of one
    render: it reads the state cells as that render saw them, and its
    setters write the cells of the component.  Of the returned view the
    conditions of its sections and the shown status messages are
    modelled ([render]), layout and styles are not; the effect run when
    the component mounts is [checkAndRequestLocationPermission]. *)

From Stdlib Require Import ZArith NArith Ascii String List Bool Lia.
From Stdlib Require Import DecimalString DecimalZ.
From Stdlib Require Import PrimFloat.
From stdpp Require Import base list gmap.

Local Open Scope Z_scope.

(** ** JavaScript strings *)

Module Js.

(** A code unit of a JavaScript string (16 bits). *)
Definition unit16 := N.

Definition jsstring := list unit16.

(** Continuation byte of a UTF-8 sequence: its six payload bits. *)
Definition cont (a : ascii) : N := N.land (N_of_ascii a) 63.

(** Code units of a code point: itself in the basic plane, a
    surrogate pair above it. *)
Definition units_of_point (p : N) : jsstring :=
  if (p <? 65536)%N then [p]
  else
    let q := (p - 65536)%N in
    [(55296 + N.shiftr q 10)%N; (56320 + N.land q 1023)%N].

(** The code units of a literal of the source, whose text this file
    holds as UTF-8 bytes. *)
Fixpoint decode (bs : list ascii) : jsstring :=
  match bs with
  | [] => []
  | a :: rest =>
      let n := N_of_ascii a in
      if (n <? 128)%N then n :: decode rest
      else if (n <? 224)%N then
        match rest with
        | b :: rest' =>
            (N.shiftl (N.land n 31) 6 + cont b)%N :: decode rest'
        | _ => [n]
        end
      else if (n <? 240)%N then
        match rest with
        | b :: c :: rest' =>
            (N.shiftl (N.land n 15) 12 + N.shiftl (cont b) 6 + cont c)%N
              :: decode rest'
        | _ => [n]
        end
      else
        match rest with
        | b :: c :: d :: rest' =>
            units_of_point
              (N.shiftl (N.land n 7) 18 + N.shiftl (cont b) 12
               + N.shiftl (cont c) 6 + cont d)%N
              ++ decode rest'
        | _ => [n]
        end
  end.

Definition lit (s : string) : jsstring := decode (list_ascii_of_string s).

(** [s.startsWith(p)] *)
Fixpoint startsWith (s p : jsstring) : bool :=
  match p, s with
  | [], _ => true
  | c :: p', d :: s' => (c =? d)%N && startsWith s' p'
  | _ :: _, [] => false
  end.

(** WhiteSpace and LineTerminator code points, the ones [trim] strips. *)
Definition isWhiteSpace (c : unit16) : bool :=
  ((9 <=? c) && (c <=? 13) || (c =? 32) || (c =? 160) || (c =? 5760)
   || (8192 <=? c) && (c <=? 8202) || (c =? 8232) || (c =? 8233)
   || (c =? 8239) || (c =? 8287) || (c =? 12288) || (c =? 65279))%N.

Fixpoint trimStart (s : jsstring) : jsstring :=
  match s with
  | c :: s' => if isWhiteSpace c then trimStart s' else s
  | [] => []
  end.

(** [s.trim()] *)
Definition trim (s : jsstring) : jsstring :=
  rev (trimStart (rev (trimStart s))).

(** Truthiness of a string: the empty string is the only falsy one. *)
Definition truthy (s : jsstring) : bool :=
  match s with [] => false | _ :: _ => true end.

(** Truthiness of a value that may be [null] or [undefined]. *)
Definition truthy_opt (o : option jsstring) : bool :=
  match o with Some s => truthy s | None => false end.

(** [o || d] on a string that may be missing. *)
Definition orElse (o : option jsstring) (d : jsstring) : jsstring :=
  match o with
  | Some s => if truthy s then s else d
  | None => d
  end.

(** Decimal rendering of an integer, as a template literal prints a
    whole number (below 10^21 in magnitude). *)
Definition ofInt (z : Z) : jsstring :=
  lit (NilEmpty.string_of_int (Z.to_int z)).

(** The code units of a printed integer: digits and the minus sign. *)
Definition numeral (c : unit16) : bool :=
  ((48 <=? c) && (c <=? 57) || (c =? 45))%N.

End Js.

Import Js.

(** ** Values exchanged with the collaborators *)

Module App.

(** The two revisions of the component under src/: [AppJs] is
    src/App.js, [Part001] is src/unnamed/part_001 (translated messages,
    scan history, another export directory policy). *)
Inductive Revision := AppJs | Part001.

Inductive PlatformOS := android | ios | otherOS.

(** [Platform.OS] and [Platform.Version] (the API level on Android). *)
Record Platform := { OS : PlatformOS; Version : Z }.

Definition isAndroid (P : Platform) : bool :=
  match OS P with android => true | _ => false end.

Inductive Permission :=
| CAMERA
| ACCESS_FINE_LOCATION
| READ_EXTERNAL_STORAGE
| WRITE_EXTERNAL_STORAGE.

(** [PermissionsAndroid.RESULTS] *)
Inductive PermissionStatus := GRANTED | DENIED | NEVER_ASK_AGAIN.

(** A thrown value: the collaborators reject with error objects, which
    the handlers read only through [err.message]. *)
Record JsError := { message : option jsstring }.

(** How an awaited promise settles. *)
Inductive Settled (A : Type) :=
| Fulfilled (a : A)
| Rejected (err : JsError).
Arguments Fulfilled {A} a.
Arguments Rejected {A} err.

Record Coords := { latitude : float; longitude : float }.

Record Position := { coords : Coords }.

(** What [Geolocation.getCurrentPosition] does with its callbacks: it
    calls the first with a position, the second with an error, or
    throws out of the call. *)
Inductive PositionReport :=
| successCallback (position : Position)
| errorCallback (code : Z)
| callThrew (err : JsError).

Record PositionOptions :=
  { enableHighAccuracy : bool; timeout : Z; maximumAge : Z }.

Record Asset := { uri : jsstring }.

(** The response object of react-native-image-picker. *)
Record PickerResponse :=
  { didCancel : bool;
    errorCode : option jsstring;
    errorMessage : option jsstring;
    assets : option (list Asset) }.

(** The result object of the text recogniser. *)
Record TextResult := { text : option jsstring }.

Inductive ImageSource := camera | gallery.

(** [RNFS.DocumentDirectoryPath] and [RNFS.DownloadDirectoryPath]. *)
Record Directories :=
  { DocumentDirectoryPath : jsstring;
    DownloadDirectoryPath : option jsstring }.

(** ** Component state *)

(** An entry of the scan history of [Part001]; [entry_timestamp] is the
    instant (epoch milliseconds) whose ISO rendering is stored. *)
Record HistoryEntry :=
  { entry_imageUri : jsstring;
    entry_extractedText : jsstring;
    entry_location : option Coords;
    entry_timestamp : Z }.

(** The [useState] cells of the component. *)
Record AppState :=
  { imageUri : option jsstring;
    imageSource : option ImageSource;
    extractedText : jsstring;
    location : option Coords;
    loading : bool;
    saveStatus : option jsstring;
    copyStatus : option jsstring;
    history : list HistoryEntry }.

Definition initialState : AppState :=
  {| imageUri := None; imageSource := None; extractedText := [];
     location := None; loading := false; saveStatus := None;
     copyStatus := None; history := [] |}.

(** Synchronous effects: the state setters, [Alert.alert] and
    [Clipboard.setString]. *)
Inductive Action :=
| setImageUri (v : option jsstring)
| setImageSource (v : option ImageSource)
| setExtractedText (v : jsstring)
| setLocation (v : option Coords)
| setLoading (v : bool)
| setSaveStatus (v : option jsstring)
| setCopyStatus (v : option jsstring)
| setHistory_prepend (e : HistoryEntry)
| Alert_alert (title msg : jsstring)
| Clipboard_setString (s : jsstring).

Definition apply (a : Action) (st : AppState) : AppState :=
  match a with
  | setImageUri v =>
      {| imageUri := v; imageSource := imageSource st;
         extractedText := extractedText st; location := location st;
         loading := loading st; saveStatus := saveStatus st;
         copyStatus := copyStatus st; history := history st |}
  | setImageSource v =>
      {| imageUri := imageUri st; imageSource := v;
         extractedText := extractedText st; location := location st;
         loading := loading st; saveStatus := saveStatus st;
         copyStatus := copyStatus st; history := history st |}
  | setExtractedText v =>
      {| imageUri := imageUri st; imageSource := imageSource st;
         extractedText := v; location := location st;
         loading := loading st; saveStatus := saveStatus st;
         copyStatus := copyStatus st; history := history st |}
  | setLocation v =>
      {| imageUri := imageUri st; imageSource := imageSource st;
         extractedText := extractedText st; location := v;
         loading := loading st; saveStatus := saveStatus st;
         copyStatus := copyStatus st; history := history st |}
  | setLoading v =>
      {| imageUri := imageUri st; imageSource := imageSource st;
         extractedText := extractedText st; location := location st;
         loading := v; saveStatus := saveStatus st;
         copyStatus := copyStatus st; history := history st |}
  | setSaveStatus v =>
      {| imageUri := imageUri st; imageSource := imageSource st;
         extractedText := extractedText st; location := location st;
         loading := loading st; saveStatus := v;
         copyStatus := copyStatus st; history := history st |}
  | setCopyStatus v =>
      {| imageUri := imageUri st; imageSource := imageSource st;
         extractedText := extractedText st; location := location st;
         loading := loading st; saveStatus := saveStatus st;
         copyStatus := v; history := history st |}
  | setHistory_prepend e =>
      {| imageUri := imageUri st; imageSource := imageSource st;
         extractedText := extractedText st; location := location st;
         loading := loading st; saveStatus := saveStatus st;
         copyStatus := copyStatus st; history := e :: history st |}
  | Alert_alert _ _ | Clipboard_setString _ => st
  end.

(** Calls whose result arrives later: through a promise or a callback. *)
Inductive Request :=
| PermissionsAndroid_request (p : Permission)
| launchCamera
| launchImageLibrary
| Geolocation_getCurrentPosition (options : PositionOptions)
| TextRecognition_recognize (image : jsstring)
| CameraRoll_save (image : jsstring)
| Share_share (msg : jsstring)
| RNFS_writeFile (path contents encoding : jsstring)
| setTimeout (ms : Z).

Definition Answer (r : Request) : Type :=
  match r with
  | PermissionsAndroid_request _ => Settled PermissionStatus
  | launchCamera | launchImageLibrary => PickerResponse
  | Geolocation_getCurrentPosition _ => PositionReport
  | TextRecognition_recognize _ => Settled (option TextResult)
  | CameraRoll_save _ | Share_share _ | RNFS_writeFile _ _ _ => Settled unit
  | setTimeout _ => unit
  end.

(** ** Asynchronous programs *)

(** A handler is a tree of its effects: it returns, performs a
    synchronous action, reads the clock, or suspends on a request and
    continues with the answer. *)
Inductive Prog (A : Type) : Type :=
| Ret (a : A)
| Do (act : Action) (k : Prog A)
| Now (k : Z -> Prog A)
| Await (r : Request) (k : Answer r -> Prog A).
Arguments Ret {A} a.
Arguments Do {A} act k.
Arguments Now {A} k.
Arguments Await {A} r k.

Fixpoint bind {A B} (p : Prog A) (f : A -> Prog B) : Prog B :=
  match p with
  | Ret a => f a
  | Do a k => Do a (bind k f)
  | Now k => Now (fun t => bind (k t) f)
  | Await r k => Await r (fun x => bind (k x) f)
  end.

#[global] Instance Prog_ret : MRet Prog := @Ret.
#[global] Instance Prog_bind : MBind Prog := fun A B f p => bind p f.

Definition act (a : Action) : Prog unit := Do a (Ret tt).
Definition await (r : Request) : Prog (Answer r) := Await r Ret.
Definition now : Prog Z := Now Ret.

(** A [try] body completes normally or throws. *)
Inductive Completion (A : Type) :=
| Normal (a : A)
| Throw (err : JsError).
Arguments Normal {A} a.
Arguments Throw {A} err.

Definition try_catch {A} (body : Prog (Completion A))
    (handler : JsError -> Prog A) : Prog A :=
  c ← body;
  match c with
  | Normal a => mret a
  | Throw err => handler err
  end.

(** ** Message literals of the two revisions *)

Record Messages :=
  { permissionDenied : jsstring;
    cameraRequired : jsstring;
    storageRequired : jsstring;
    cameraError : jsstring;
    galleryError : jsstring;
    unknownError : jsstring;
    locationDenied : jsstring;
    noTextDetected : jsstring;
    ocrFailed : jsstring;
    success : jsstring;
    error : jsstring;
    photoSaved : jsstring;
    failedToSavePhoto : jsstring;
    failedToShare : jsstring;
    copied : jsstring;
    textSaved : jsstring;
    failedToSaveText : jsstring;
    failedToSaveTextStatus : jsstring }.

(** src/App.js *)
Definition english : Messages :=
  {| permissionDenied := lit "Permission Denied";
     cameraRequired := lit "Camera permission is required.";
     storageRequired := lit "Storage permission is required.";
     cameraError := lit "Camera Error";
     galleryError := lit "Gallery Error";
     unknownError := lit "Unknown error";
     locationDenied := lit "Location permission denied";
     noTextDetected := lit "No text detected.";
     ocrFailed := lit "OCR failed: ";
     success := lit "Success";
     error := lit "Error";
     photoSaved := lit "Photo saved to gallery.";
     failedToSavePhoto := lit "Failed to save photo: ";
     failedToShare := lit "Failed to share text: ";
     copied := lit "Copied!";
     textSaved := lit "Text saved to file:" ++ [10%N];
     failedToSaveText := lit "Failed to save text: ";
     failedToSaveTextStatus := lit "Failed to save text." |}.

(** src/unnamed/part_001 *)
Definition serbian : Messages :=
  {| permissionDenied := lit "Dozvola odbijena";
     cameraRequired := lit "Potrebna je dozvola za kameru.";
     storageRequired := lit "Potrebna je dozvola za skladištenje.";
     cameraError := lit "Greška kamere";
     galleryError := lit "Greška galerije";
     unknownError := lit "Nepoznata greška";
     locationDenied := lit "Dozvola za lokaciju je odbijena";
     noTextDetected := lit "Nije pronađen tekst.";
     ocrFailed := lit "OCR nije uspeo: ";
     success := lit "Uspeh";
     error := lit "Greška";
     photoSaved := lit "Fotografija je sačuvana u galeriji.";
     failedToSavePhoto := lit "Neuspešno čuvanje fotografije: ";
     failedToShare := lit "Neuspešno deljenje teksta: ";
     copied := lit "Kopirano!";
     textSaved := lit "Tekst je sačuvan u fajl:" ++ [10%N];
     failedToSaveText := lit "Neuspešno čuvanje teksta: ";
     failedToSaveTextStatus := lit "Neuspešno čuvanje teksta." |}.

Definition messages (rev : Revision) : Messages :=
  match rev with AppJs => english | Part001 => serbian end.

(** ** The handlers *)

(** [requestAndroidPermission]: granted only when the request returns
    GRANTED; a failing request counts as a refusal. *)
Definition requestAndroidPermission (permission : Permission) : Prog bool :=
  granted ← await (PermissionsAndroid_request permission);
  match granted with
  | Fulfilled GRANTED => mret true
  | Fulfilled _ => mret false
  | Rejected _ => mret false
  end.

Definition positionOptions : PositionOptions :=
  {| enableHighAccuracy := true; timeout := 10000; maximumAge := 10000 |}.

(** The object the success callback builds from a position. *)
Definition locOf (position : Position) : Coords :=
  {| latitude := latitude (coords position);
     longitude := longitude (coords position) |}.

(** The executor of the promise around [Geolocation.getCurrentPosition],
    over the [resolve] and [reject] it is given.  An exception thrown by
    the call itself is turned into a rejection by the promise
    constructor. *)
Definition onReport {A} (resolve : unit -> Prog A)
    (reject : JsError -> Prog A) (report : PositionReport) : Prog A :=
  match report with
  | successCallback position =>
      let loc := locOf position in
      act (setLocation (Some loc));;
      resolve tt
  | errorCallback _ =>
      act (setLocation None);;
      resolve tt
  | callThrew err => reject err
  end.

Definition positionPromise {A} (resolve : unit -> Prog A)
    (reject : JsError -> Prog A) : Prog A :=
  report ← await (Geolocation_getCurrentPosition positionOptions);
  onReport resolve reject report.

(** The gate shared by the three text actions. *)
Definition textRejected (extracted : jsstring) : bool :=
  negb (truthy extracted)
  || startsWith extracted (lit "No text")
  || startsWith extracted (lit "OCR failed").

Definition isCamera (src : option ImageSource) : bool :=
  match src with Some camera => true | _ => false end.

Section Component.

Context (rev : Revision) (P : Platform) (RNFS : Directories).

Let M := messages rev.

(** The [try] block of step 1 of [processImageAndLocation]. *)
Definition locationAttempt : Prog (Completion unit) :=
  let query :=
    positionPromise (fun _ => mret (Normal tt)) (fun err => mret (Throw err)) in
  if isAndroid P then
    locGranted ← requestAndroidPermission ACCESS_FINE_LOCATION;
    if negb locGranted
    then mret (Throw {| message := Some (locationDenied M) |})
    else query
  else query.

(** Step 1 of [processImageAndLocation]: the [try] block with its
    [catch]. *)
Definition positioning : Prog unit :=
  try_catch locationAttempt (fun _ => act (setLocation None)).

(** Step 2 of [processImageAndLocation], from the point where the
    recogniser has settled: the rest of the [try] block, or the
    [catch]. *)
Definition onRecognized (settled : Settled (option TextResult)) : Prog unit :=
  match settled with
  | Fulfilled (Some {| text := Some t |}) =>
      if truthy t
      then act (setExtractedText
                  (if truthy (trim t) then t else noTextDetected M))
      else act (setExtractedText (noTextDetected M))
  | Fulfilled _ => act (setExtractedText (noTextDetected M))
  | Rejected err =>
      act (setExtractedText (ocrFailed M ++ orElse (message err) (unknownError M)))
  end.

Definition recognition (image : jsstring) : Prog unit :=
  settled ← await (TextRecognition_recognize image);
  onRecognized settled.

(** The last statement of [processImageAndLocation] in [Part001]: the
    scan is added to the history.  [extractedText] and [location] are
    the variables of the enclosing render. *)
Definition recordScan (captured : AppState) (image : jsstring) : Prog unit :=
  match rev with
  | AppJs => mret tt
  | Part001 =>
      t ← now;
      act (setHistory_prepend
             {| entry_imageUri := image;
                entry_extractedText := extractedText captured;
                entry_location := location captured;
                entry_timestamp := t |})
  end.

(** [processImageAndLocation(uri)], as created by the render whose
    state is [captured]. *)
Definition processImageAndLocation (captured : AppState) (image : jsstring)
    : Prog unit :=
  act (setLoading true);;
  act (setExtractedText []);;
  act (setLocation None);;
  positioning;;
  recognition image;;
  act (setLoading false);;
  recordScan captured image.

(** The statements both acquisition handlers start with. *)
Definition resetPipeline : Prog unit :=
  act (setSaveStatus None);;
  act (setCopyStatus None);;
  act (setExtractedText []);;
  act (setLocation None);;
  act (setImageUri None);;
  act (setImageSource None).

(** The callback given to [launchCamera] and [launchImageLibrary]. *)
Definition onPicked (captured : AppState) (src : ImageSource)
    (response : PickerResponse) : Prog unit :=
  if didCancel response then mret tt
  else if truthy_opt (errorCode response) then
    act (Alert_alert
           (match src with camera => cameraError M | gallery => galleryError M end)
           (orElse (errorMessage response) (unknownError M)))
  else
    match assets response with
    | Some (asset :: _) =>
        act (setImageUri (Some (uri asset)));;
        act (setImageSource (Some src));;
        processImageAndLocation captured (uri asset)
    | _ => mret tt
    end.

Definition handleTakePhoto (captured : AppState) : Prog unit :=
  resetPipeline;;
  let launch :=
    response ← await launchCamera;
    onPicked captured camera response in
  if isAndroid P then
    cameraGranted ← requestAndroidPermission CAMERA;
    if negb cameraGranted
    then act (Alert_alert (permissionDenied M) (cameraRequired M))
    else launch
  else launch.

Definition handleSelectFromGallery (captured : AppState) : Prog unit :=
  resetPipeline;;
  let launch :=
    response ← await launchImageLibrary;
    onPicked captured gallery response in
  if isAndroid P then
    storageGranted ← requestAndroidPermission READ_EXTERNAL_STORAGE;
    if negb storageGranted
    then act (Alert_alert (permissionDenied M) (storageRequired M))
    else launch
  else launch.

(** [handleSavePhoto]: save the photo to the gallery (camera images
    only). *)
Definition handleSavePhoto (captured : AppState) : Prog unit :=
  match imageUri captured with
  | Some image =>
      if negb (truthy image) || negb (isCamera (imageSource captured))
      then mret tt
      else
        act (setSaveStatus None);;
        let save :=
          saved ← await (CameraRoll_save image);
          match saved with
          | Fulfilled _ =>
              act (setSaveStatus (Some (lit "Photo saved to gallery.")));;
              act (Alert_alert (success M) (photoSaved M))
          | Rejected err =>
              act (setSaveStatus (Some (lit "Failed to save photo.")));;
              act (Alert_alert (error M)
                     (failedToSavePhoto M ++ orElse (message err) (unknownError M)))
          end in
        if isAndroid P then
          writeGranted ← requestAndroidPermission WRITE_EXTERNAL_STORAGE;
          if negb writeGranted
          then act (Alert_alert (permissionDenied M) (storageRequired M))
          else save
        else save
  | None => mret tt
  end.

Definition handleShareText (captured : AppState) : Prog unit :=
  if textRejected (extractedText captured) then mret tt
  else
    shared ← await (Share_share (extractedText captured));
    match shared with
    | Fulfilled _ => mret tt
    | Rejected err =>
        act (Alert_alert (error M)
               (failedToShare M ++ orElse (message err) (unknownError M)))
    end.

Definition handleCopyText (captured : AppState) : Prog unit :=
  if textRejected (extractedText captured) then mret tt
  else
    act (Clipboard_setString (extractedText captured));;
    act (setCopyStatus (Some (copied M)));;
    await (setTimeout 1500);;
    act (setCopyStatus None).

(** The name of an export file: [ocr_result_${Date.now()}.txt]. *)
Definition exportName (t : Z) : jsstring :=
  lit "ocr_result_" ++ ofInt t ++ lit ".txt".

Definition exportPath (dir : jsstring) (t : Z) : jsstring :=
  dir ++ lit "/" ++ exportName t.

(** The end of [handleSaveTextToFile], once the directory is chosen. *)
Definition writeExport (captured : AppState) (dir : jsstring) : Prog unit :=
  t ← now;
  let filePath := exportPath dir t in
  written ← await (RNFS_writeFile filePath (extractedText captured) (lit "utf8"));
  match written with
  | Fulfilled _ =>
      act (setSaveStatus (Some (textSaved M ++ filePath)));;
      act (Alert_alert (success M) (textSaved M ++ filePath))
  | Rejected err =>
      act (setSaveStatus (Some (failedToSaveTextStatus M)));;
      act (Alert_alert (error M)
             (failedToSaveText M ++ orElse (message err) (unknownError M)))
  end.

Definition handleSaveTextToFile (captured : AppState) : Prog unit :=
  if textRejected (extractedText captured) then mret tt
  else
    act (setSaveStatus None);;
    let documents := DocumentDirectoryPath RNFS in
    match rev with
    | AppJs =>
        match DownloadDirectoryPath RNFS with
        | Some downloads =>
            if isAndroid P && truthy downloads then
              writeGranted ← requestAndroidPermission WRITE_EXTERNAL_STORAGE;
              if negb writeGranted
              then act (Alert_alert (permissionDenied M) (storageRequired M))
              else writeExport captured downloads
            else writeExport captured documents
        | None => writeExport captured documents
        end
    | Part001 =>
        if isAndroid P then
          if Version P >=? 30 then writeExport captured documents
          else
            match DownloadDirectoryPath RNFS with
            | Some downloads =>
                if truthy downloads then
                  writeGranted ← requestAndroidPermission WRITE_EXTERNAL_STORAGE;
                  if (writeGranted : bool) then writeExport captured downloads
                  else
                    act (Alert_alert (permissionDenied M)
                           (lit "Potrebna je dozvola za skladištenje. Čuvanje u privatnu memoriju aplikacije."));;
                    writeExport captured documents
                else writeExport captured documents
            | None => writeExport captured documents
            end
        else writeExport captured documents
    end.

End Component.

(** ** Running a handler *)

(** What an observer sees: the synchronous actions and the calls to
    the collaborators, in order. *)
Inductive Event :=
| Did (a : Action)
| Called (r : Request).

(** The environment of one uninterrupted run: what each call is
    answered with, if it is answered at all, and the clock. *)
Record Env :=
  { answer : forall r : Request, option (Answer r);
    clock : Z }.

Inductive Outcome (A : Type) :=
| Done (a : A)
| WaitingOn (r : Request).
Arguments Done {A} a.
Arguments WaitingOn {A} r.

Record Run (A : Type) :=
  { events : list Event;
    final : AppState;
    outcome : Outcome A }.
Arguments events {A} _.
Arguments final {A} _.
Arguments outcome {A} _.

Definition after {A} (e : Event) (run : Run A) : Run A :=
  {| events := e :: events run; final := final run; outcome := outcome run |}.

(** Runs [p] from state [st] until it returns or waits on a call that
    the environment never answers. *)
Fixpoint exec {A} (env : Env) (p : Prog A) (st : AppState) : Run A :=
  match p with
  | Ret a => {| events := []; final := st; outcome := Done a |}
  | Do a k => after (Did a) (exec env k (apply a st))
  | Now k => exec env (k (clock env)) st
  | Await r k =>
      match answer env r with
      | Some x => after (Called r) (exec env (k x) st)
      | None => {| events := [Called r]; final := st; outcome := WaitingOn r |}
      end
  end.

(** The run of [p] followed by the run of its continuation. *)
Definition andThen {A B} (first : Run A) (next : A -> AppState -> Run B)
    : Run B :=
  match outcome first with
  | Done a =>
      let second := next a (final first) in
      {| events := events first ++ events second;
         final := final second;
         outcome := outcome second |}
  | WaitingOn r =>
      {| events := events first; final := final first; outcome := WaitingOn r |}
  end.

(** The run of a handler that does nothing. *)
Definition idle (st : AppState) : Run unit :=
  {| events := []; final := st; outcome := Done tt |}.

Definition finished {A} (run : Run A) : bool :=
  match outcome run with Done _ => true | WaitingOn _ => false end.

Definition isCall (e : Event) : bool :=
  match e with Called _ => true | Did _ => false end.

Definition isAlert (e : Event) : bool :=
  match e with Did (Alert_alert _ _) => true | _ => false end.

(** ** Interleaved runs *)

(** A handler suspended on a call. *)
Record Suspended :=
  { pending : Request;
    resume : Answer pending -> Prog unit }.

Record World :=
  { state : AppState;
    trace : list Event;
    tasks : list Suspended }.

Definition start : World :=
  {| state := initialState; trace := []; tasks := [] |}.

(** Runs [p] up to its next suspension, at clock reading [t]. *)
Fixpoint advance (t : Z) (p : Prog unit) (w : World) : World :=
  match p with
  | Ret _ => w
  | Do a k =>
      advance t k
        {| state := apply a (state w);
           trace := trace w ++ [Did a];
           tasks := tasks w |}
  | Now k => advance t (k t) w
  | Await r k =>
      {| state := state w;
         trace := trace w ++ [Called r];
         tasks := tasks w ++ [{| pending := r; resume := k |}] |}
  end.

(** The user triggers a handler: it is the closure of the render that
    shows the current state. *)
Definition press (handler : AppState -> Prog unit) (t : Z) (w : World) : World :=
  advance t (handler (state w)) w.

(** The [i]-th pending call settles with answer [x]. *)
Definition settle (i : nat) (x : forall r, Answer r) (t : Z) (w : World) : World :=
  match tasks w !! i with
  | Some task =>
      advance t (resume task (x (pending task)))
        {| state := state w; trace := trace w; tasks := delete i (tasks w) |}
  | None => w
  end.

(** ** The positioning step, run by run *)

Definition locationPermission : Request :=
  PermissionsAndroid_request ACCESS_FINE_LOCATION.

Definition positionQuery : Request :=
  Geolocation_getCurrentPosition positionOptions.

Definition recognize (image : jsstring) : Request :=
  TextRecognition_recognize image.

(** The permission request that precedes the query, on Android only. *)
Definition asked (P : Platform) : list Event :=
  if isAndroid P then [Called locationPermission] else [].

(** The query is reached: off Android always, on Android once the
    permission request returned GRANTED. *)
Definition queried (P : Platform) (env : Env) : Prop :=
  isAndroid P = true ->
  answer env locationPermission = Some (Fulfilled GRANTED).

(** The six ways the positioning step can run from state [st]. *)
Inductive PositioningRun (P : Platform) (env : Env) (st : AppState)
    : Run unit -> Prop :=
| awaitsPermission :
    isAndroid P = true ->
    answer env locationPermission = None ->
    PositioningRun P env st
      {| events := [Called locationPermission];
         final := st;
         outcome := WaitingOn locationPermission |}
| refused (settled : Settled PermissionStatus) :
    isAndroid P = true ->
    answer env locationPermission = Some settled ->
    settled <> Fulfilled GRANTED ->
    PositioningRun P env st
      {| events := [Called locationPermission; Did (setLocation None)];
         final := apply (setLocation None) st;
         outcome := Done tt |}
| awaitsReport :
    queried P env ->
    answer env positionQuery = None ->
    PositioningRun P env st
      {| events := asked P ++ [Called positionQuery];
         final := st;
         outcome := WaitingOn positionQuery |}
| fixed (position : Position) :
    queried P env ->
    answer env positionQuery = Some (successCallback position) ->
    PositioningRun P env st
      {| events := asked P ++ [Called positionQuery;
                               Did (setLocation (Some (locOf position)))];
         final := apply (setLocation (Some (locOf position))) st;
         outcome := Done tt |}
| reportedError (code : Z) :
    queried P env ->
    answer env positionQuery = Some (errorCallback code) ->
    PositioningRun P env st
      {| events := asked P ++ [Called positionQuery; Did (setLocation None)];
         final := apply (setLocation None) st;
         outcome := Done tt |}
| queryThrew (err : JsError) :
    queried P env ->
    answer env positionQuery = Some (callThrew err) ->
    PositioningRun P env st
      {| events := asked P ++ [Called positionQuery; Did (setLocation None)];
         final := apply (setLocation None) st;
         outcome := Done tt |}.

(** Positioning fails: the permission is refused, the service reports
    an error (time-out, unavailable position, device error) through
    the error callback, or the call itself throws. *)
Definition positioningFailed (P : Platform) (env : Env) : Prop :=
  (isAndroid P = true /\
   exists settled, answer env locationPermission = Some settled /\
                   settled <> Fulfilled GRANTED)
  \/ (queried P env /\
      exists code, answer env positionQuery = Some (errorCallback code))
  \/ (queried P env /\
      exists err, answer env positionQuery = Some (callThrew err)).

(** ** Recognition outcomes, in the words of the specification *)

Inductive RecognitionOutcome :=
| Recognized (content : jsstring)
| Empty
| Failed (reason : jsstring).

(** A text is blank when it holds nothing but white space. *)
Definition blank (s : jsstring) : bool := forallb isWhiteSpace s.

(** The outcome the specification assigns to what the recogniser did:
    text with non-blank content is recognised, missing or blank text is
    empty, a failing invocation is a failure with its reason. *)
Definition outcomeOf (M : Messages) (settled : Settled (option TextResult))
    : RecognitionOutcome :=
  match settled with
  | Fulfilled (Some {| text := Some t |}) =>
      if blank t then Empty else Recognized t
  | Fulfilled _ => Empty
  | Rejected err => Failed (orElse (message err) (unknownError M))
  end.

(** How an outcome is held in the [extractedText] cell. *)
Definition shown (M : Messages) (o : RecognitionOutcome) : jsstring :=
  match o with
  | Recognized content => content
  | Empty => noTextDetected M
  | Failed reason => ocrFailed M ++ reason
  end.

(** ** Acquisition, by source *)

Definition acquire (rev : Revision) (P : Platform) (src : ImageSource)
    : AppState -> Prog unit :=
  match src with
  | camera => handleTakePhoto rev P
  | gallery => handleSelectFromGallery rev P
  end.

(** The permission each source asks for on Android. *)
Definition permissionOf (src : ImageSource) : Permission :=
  match src with camera => CAMERA | gallery => READ_EXTERNAL_STORAGE end.

Definition chooserOf (src : ImageSource) : Request :=
  match src with camera => launchCamera | gallery => launchImageLibrary end.

Definition requiredMessage (M : Messages) (src : ImageSource) : jsstring :=
  match src with camera => cameraRequired M | gallery => storageRequired M end.

(** The end of a refused acquisition: the permission alert. *)
Definition refusalAlert (rev : Revision) (src : ImageSource) : Event :=
  Did (Alert_alert (permissionDenied (messages rev))
         (requiredMessage (messages rev) src)).

(** The setters of [resetPipeline], in order. *)
Definition resetActions : list Action :=
  [setSaveStatus None; setCopyStatus None; setExtractedText [];
   setLocation None; setImageUri None; setImageSource None].

(** A state with no record: no image, no text, no coordinate, no
    status message. *)
Definition cleared (st : AppState) : AppState :=
  {| imageUri := None; imageSource := None; extractedText := [];
     location := None; loading := loading st; saveStatus := None;
     copyStatus := None; history := history st |}.

(** ** Pending calls of the processing *)

(** [processImageAndLocation] suspended on the recogniser. *)
Definition recognitionTask (rev : Revision) (captured : AppState)
    (image : jsstring) : Suspended :=
  {| pending := recognize image;
     resume := fun settled =>
       onRecognized rev settled;;
       act (setLoading false);;
       recordScan rev captured image |}.

(** [processImageAndLocation] suspended on the position query. *)
Definition positionTask (rev : Revision) (captured : AppState)
    (image : jsstring) : Suspended :=
  {| pending := positionQuery;
     resume := fun report =>
       try_catch
         (onReport (fun _ => mret (Normal tt)) (fun err => mret (Throw err)) report)
         (fun _ => act (setLocation None));;
       recognition rev image;;
       act (setLoading false);;
       recordScan rev captured image |}.

(** ** Environments for concrete runs *)

(** The environment that answers every permission request with [perm],
    both choosers with [pick], the position query with [pos], the
    recogniser with [ocr], every write, save and share with [io], and
    whose clock reads [t]. *)
Definition scenario (perm : option (Settled PermissionStatus))
    (pick : option PickerResponse) (pos : option PositionReport)
    (ocr : option (Settled (option TextResult)))
    (io : option (Settled unit)) (t : Z) : Env :=
  {| answer := fun r =>
       match r return option (Answer r) with
       | PermissionsAndroid_request _ => perm
       | launchCamera | launchImageLibrary => pick
       | Geolocation_getCurrentPosition _ => pos
       | TextRecognition_recognize _ => ocr
       | CameraRoll_save _ | Share_share _ | RNFS_writeFile _ _ _ => io
       | setTimeout _ => Some tt
       end;
     clock := t |}.

(** Answers for [settle]: the same, every call answered. *)
Definition replies (perm : Settled PermissionStatus) (pick : PickerResponse)
    (pos : PositionReport) (ocr : Settled (option TextResult))
    (io : Settled unit) (r : Request) : Answer r :=
  match r return Answer r with
  | PermissionsAndroid_request _ => perm
  | launchCamera | launchImageLibrary => pick
  | Geolocation_getCurrentPosition _ => pos
  | TextRecognition_recognize _ => ocr
  | CameraRoll_save _ | Share_share _ | RNFS_writeFile _ _ _ => io
  | setTimeout _ => tt
  end.

Definition picked (image : jsstring) : PickerResponse :=
  {| didCancel := false; errorCode := None; errorMessage := None;
     assets := Some [{| uri := image |}] |}.

Definition read (content : jsstring) : Settled (option TextResult) :=
  Fulfilled (Some {| text := Some content |}).

Definition iPhone : Platform := {| OS := ios; Version := 17 |}.
Definition pixel : Platform := {| OS := android; Version := 28 |}.

Definition sandbox : Directories :=
  {| DocumentDirectoryPath := lit "/data/files";
     DownloadDirectoryPath := Some (lit "/storage/Download") |}.

#[warnings="-inexact-float"]
Definition newYork : Position :=
  {| coords := {| latitude := 40.71; longitude := -74.00 |} |}.

Definition invoice : jsstring :=
  lit "INVOICE #102" ++ [10%N] ++ lit "TOTAL 45.00".

(** A record with recognised text, and an environment in which every
    write succeeds and the clock reads [t]. *)
Definition invoiceRecord : AppState :=
  {| imageUri := Some (lit "scan.jpg"); imageSource := Some gallery;
     extractedText := invoice; location := None; loading := false;
     saveStatus := None; copyStatus := None; history := [] |}.

Definition storingAt (t : Z) : Env :=
  scenario None None None None (Some (Fulfilled tt)) t.

(** ** A superseded acquisition *)

(** The environment that answers no call: a run stops at its first
    call. *)
Definition silent (t : Z) : Env :=
  {| answer := fun _ => None; clock := t |}.

Definition firstPhoto : jsstring := lit "first.jpg".
Definition secondPhoto : jsstring := lit "second.jpg".

(** Answers of the chooser, the position service and the recogniser. *)
Definition answering (pick : PickerResponse) (pos : PositionReport)
    (ocr : Settled (option TextResult)) : forall r, Answer r :=
  replies (Fulfilled GRANTED) pick pos ocr (Fulfilled tt).

(** The first photo is taken and located, and is being recognised. *)
Definition recognising : World :=
  let w1 := press (acquire AppJs iPhone camera) 0 start in
  let w2 := settle 0 (answering (picked firstPhoto) (errorCallback 0) (read [])) 1 w1 in
  settle 0 (answering (picked firstPhoto) (successCallback newYork) (read [])) 2 w2.

(** The user takes a second photo, which is now being located. *)
Definition superseded : World :=
  let w4 := press (acquire AppJs iPhone camera) 3 recognising in
  settle 1 (answering (picked secondPhoto) (errorCallback 0) (read [])) 4 w4.

(** The recogniser answers for the first photo. *)
Definition lateAnswer : World :=
  settle 0 (answering (picked firstPhoto) (errorCallback 0) (read invoice)) 5
    superseded.

(** The first photo is being recognised and the user presses the camera
    button again: the new acquisition waits for its chooser. *)
Definition retaken : World :=
  press (acquire AppJs iPhone camera) 3 recognising.

(** The recogniser answers for the first photo while the chooser of the
    new acquisition is still open. *)
Definition lateOnReset : World :=
  settle 0 (answering (picked firstPhoto) (errorCallback 0) (read invoice)) 4
    retaken.

(** ** Two overlapping runs on Android *)

(** A photo is taken on Android, every permission granted: the handler
    is pressed in world [w], the camera permission, the chooser and the
    location permission settle; [i] is the place of the new task among
    the pending ones.  The position query of the photo is left
    pending. *)
Definition shoot (image : jsstring) (i : nat) (t : Z) (w : World) : World :=
  let answers := answering (picked image) (errorCallback 0) (read []) in
  settle i answers t
    (settle i answers t
       (settle i answers t (press (acquire AppJs pixel camera) t w))).

(** Two photos in a row, both waiting for their position. *)
Definition bothLocating : World := shoot secondPhoto 1 1 (shoot firstPhoto 0 0 start).

(** The position service times out for the second photo: its run goes
    on to the recogniser. *)
Definition secondUnlocated : World :=
  settle 1 (answering (picked secondPhoto) (errorCallback 3) (read [])) 2
    bothLocating.

(** The service then reports a fix for the first photo. *)
Definition lateFix : World :=
  settle 0 (answering (picked firstPhoto) (successCallback newYork) (read [])) 3
    secondUnlocated.

(** The recogniser answers for the second photo: its run is finished. *)
Definition secondFinished : World :=
  settle 0 (answering (picked secondPhoto) (errorCallback 0) (read (lit "SECOND"))) 4
    lateFix.

(** ** The file store *)

(** The [RNFS.writeFile] calls of a run: path, contents, encoding. *)
Fixpoint writes (evs : list Event) : list (jsstring * jsstring * jsstring) :=
  match evs with
  | Called (RNFS_writeFile path contents encoding) :: rest =>
      (path, contents, encoding) :: writes rest
  | _ :: rest => writes rest
  | [] => []
  end.

(** The files after a list of writes; the file system is the
    collaborator's: a write creates the file at its path or replaces
    it. *)
Definition store (ws : list (jsstring * jsstring * jsstring))
    (files : gmap (list N) (list N)) : gmap (list N) (list N) :=
  fold_left (fun fs w => <[w.1.1 := w.1.2]> fs) ws files.

(** The files written by the [RNFS.writeFile] calls of a run: a write
    creates the file at its path or replaces it. *)
Fixpoint written (evs : list Event) (files : gmap (list N) (list N))
    : gmap (list N) (list N) :=
  match evs with
  | Called (RNFS_writeFile path contents _) :: rest =>
      written rest (<[path := contents]> files)
  | _ :: rest => written rest files
  | [] => files
  end.

(** ** What the component renders *)

(** [s.replace(pattern, replacement)] for a string pattern: the first
    occurrence is replaced (the replacements of the source hold no
    dollar sign). *)
Fixpoint replace (s pattern replacement : jsstring) : jsstring :=
  if startsWith s pattern then replacement ++ skipn (length pattern) s
  else
    match s with
    | c :: s' => c :: replace s' pattern replacement
    | [] => []
    end.

(** The conditional sections of the returned view. *)
Record View :=
  { showsLoading : bool;
    showsImage : bool;
    showsText : bool;
    showsLocation : bool;
    showsNoLocation : bool;
    showsSaveButton : bool;
    showsTextActions : bool;
    shownSaveStatus : option jsstring;
    shownCopyStatus : option jsstring }.

Definition isSome {A} (o : option A) : bool :=
  match o with Some _ => true | None => false end.

(** The save status as [Part001] prints it. *)
Definition localizedSaveStatus (status : jsstring) : jsstring :=
  replace
    (replace
       (replace
          (replace
             (replace
                (replace
                   (replace
                      (replace status (lit "Photo saved to gallery.")
                         (lit "Fotografija je sačuvana u galeriji."))
                      (lit "Failed to save photo.")
                      (lit "Neuspešno čuvanje fotografije."))
                   (lit "Text saved to file:") (lit "Tekst je sačuvan u fajl:"))
                (lit "Failed to save text.") (lit "Neuspešno čuvanje teksta."))
             (lit "Permission Denied") (lit "Dozvola odbijena"))
          (lit "Saving to app-private storage instead.")
          (lit "Čuvanje u privatnu memoriju aplikacije."))
       (lit "Storage permission is required.")
       (lit "Potrebna je dozvola za skladištenje."))
    (lit "OCR failed") (lit "OCR nije uspeo").

Definition render (rev : Revision) (st : AppState) : View :=
  {| showsLoading := loading st;
     showsImage := truthy_opt (imageUri st);
     showsText := truthy (extractedText st);
     showsLocation := isSome (location st);
     showsNoLocation :=
       negb (isSome (location st)) && truthy_opt (imageUri st)
       && negb (loading st);
     showsSaveButton :=
       truthy_opt (imageUri st) && isCamera (imageSource st);
     showsTextActions :=
       truthy (extractedText st)
       && negb (startsWith (extractedText st) (lit "No text"))
       && negb (startsWith (extractedText st) (lit "OCR failed"));
     shownSaveStatus :=
       match saveStatus st with
       | Some status =>
           if truthy status
           then Some match rev with
                     | AppJs => status
                     | Part001 => localizedSaveStatus status
                     end
           else None
       | None => None
       end;
     shownCopyStatus :=
       match copyStatus st with
       | Some status =>
           if truthy status
           then Some match rev with
                     | AppJs => status
                     | Part001 => replace status (lit "Copied!") (lit "Kopirano!")
                     end
           else None
       | None => None
       end |}.

(** ** The effect run when the component mounts *)

(** [checkAndRequestLocationPermission]: nothing off Android; on
    Android the awaited [PermissionsAndroid.check], then the rest of the
    function on its result. *)
Inductive Startup :=
| nothingToCheck
| checkPermission (permission : Permission) (next : bool -> Prog unit).

Definition permissionRequired (rev : Revision) : jsstring :=
  match rev with
  | AppJs =>
      lit "Location permission is required for geotagging scans. Please enable it in settings."
  | Part001 =>
      lit "Dozvola za lokaciju je potrebna za geooznačavanje skeniranja. Omogućite je u podešavanjima."
  end.

Definition checkAndRequestLocationPermission (rev : Revision) (P : Platform)
    : Startup :=
  if isAndroid P then
    checkPermission ACCESS_FINE_LOCATION (fun hasPermission =>
      if negb hasPermission then
        granted ← requestAndroidPermission ACCESS_FINE_LOCATION;
        if negb granted
        then act (Alert_alert (lit "Permission Required") (permissionRequired rev))
        else mret tt
      else mret tt)
  else nothingToCheck.

(** The run of the mount effect after its check: [held] is what the
    check settles with, if it does; a check that throws ends the
    function there.  The events and the state it leaves. *)
Definition mount (env : Env) (held : option (Settled bool)) (s : Startup)
    (st : AppState) : list Event * AppState :=
  match s with
  | nothingToCheck => ([], st)
  | checkPermission _ next =>
      match held with
      | Some (Fulfilled has) =>
          let run := exec env (next has) st in
          (events run, final run)
      | Some (Rejected _) => ([], st)
      | None => ([], st)
      end
  end.

(** ** Vocabulary of the properties *)

(** A permission does not stand in the way: it is not asked for (off
    Android) or the request returns GRANTED. *)
Definition allowed (P : Platform) (env : Env) (permission : Permission)
    : Prop :=
  isAndroid P = true ->
  answer env (PermissionsAndroid_request permission) = Some (Fulfilled GRANTED).

(** The permission request made on Android before the real work. *)
Definition asking (P : Platform) (permission : Permission) : list Event :=
  if isAndroid P then [Called (PermissionsAndroid_request permission)] else [].

(** A run with earlier events in front. *)
Definition afterAll {A} (evs : list Event) (run : Run A) : Run A :=
  {| events := evs ++ events run; final := final run; outcome := outcome run |}.

(** The alert title of a chooser error. *)
Definition chooserError (M : Messages) (src : ImageSource) : jsstring :=
  match src with camera => cameraError M | gallery => galleryError M end.

(** The chooser of a source, then its callback. *)
Definition choosing (rev : Revision) (P : Platform) (src : ImageSource)
    (captured : AppState) : Prog unit :=
  match src with
  | camera =>
      response ← await launchCamera;
      onPicked rev P captured camera response
  | gallery =>
      response ← await launchImageLibrary;
      onPicked rev P captured gallery response
  end.

(** What the chooser of a source answers in an environment. *)
Definition chosen (env : Env) (src : ImageSource) : option PickerResponse :=
  match src with
  | camera => answer env launchCamera
  | gallery => answer env launchImageLibrary
  end.

(** Two states hold the same record and history: they differ at most
    in the two status messages. *)
Definition sameRecord (st st' : AppState) : Prop :=
  imageUri st' = imageUri st /\
  imageSource st' = imageSource st /\
  extractedText st' = extractedText st /\
  location st' = location st /\
  loading st' = loading st /\
  history st' = history st.

(** The events a processing run may show: its own setters and its
    three calls. *)
Definition processingEvent (e : Event) : bool :=
  match e with
  | Did (setLoading _) | Did (setExtractedText _) | Did (setLocation _)
  | Did (setHistory_prepend _) => true
  | Called (PermissionsAndroid_request ACCESS_FINE_LOCATION)
  | Called (Geolocation_getCurrentPosition _)
  | Called (TextRecognition_recognize _) => true
  | _ => false
  end.

Definition calls (evs : list Event) : list Event := filter isCall evs.

(** A record shown after a scan of [image]. *)
Definition scanned (src : ImageSource) (image content : jsstring) : AppState :=
  {| imageUri := Some image; imageSource := Some src;
     extractedText := content; location := None; loading := false;
     saveStatus := None; copyStatus := None; history := [] |}.

(** The events of an acquisition up to and including the chooser. *)
Definition untilChooser (P : Platform) (src : ImageSource) : list Event :=
  map Did resetActions ++ asking P (permissionOf src) ++ [Called (chooserOf src)].

(** The calls of the camera roll in a run. *)
Definition saves (evs : list Event) : list jsstring :=
  flat_map (fun e => match e with
                     | Called (CameraRoll_save image) => [image]
                     | _ => []
                     end) evs.

(** ** A handler that runs alone *)

(** The environment in which every call is answered by [x]. *)
Definition everyAnswer (x : forall r, Answer r) (t : Z) : Env :=
  {| answer := fun r => Some (x r); clock := t |}.

(** The pending calls settle one after the other, oldest first. *)
Fixpoint drain (n : nat) (x : forall r, Answer r) (t : Z) (w : World) : World :=
  match n with
  | O => w
  | S n' => drain n' x t (settle 0 x t w)
  end.

End App.

Import App.

(** ** Strings *)

Lemma trimStart_nil_blank s : trimStart s = [] <-> blank s = true.
Proof.
  induction s as [|c s IH]; simpl; [tauto|].
  destruct (isWhiteSpace c); simpl; [exact IH|].
  split; discriminate.
Qed.

Lemma blank_app s1 s2 : blank (s1 ++ s2) = blank s1 && blank s2.
Proof. apply forallb_app. Qed.

Lemma blank_rev s : blank (rev s) = blank s.
Proof.
  induction s as [|c s IH]; simpl; [reflexivity|].
  rewrite blank_app, IH. simpl. rewrite andb_true_r. apply andb_comm.
Qed.

Lemma trimStart_blank s : blank (trimStart s) = blank s.
Proof.
  induction s as [|c s IH]; simpl; [reflexivity|].
  destruct (isWhiteSpace c) eqn:E; simpl; [exact IH|].
  now rewrite E.
Qed.

(** [s.trim()] is falsy exactly when [s] is blank. *)
Lemma truthy_trim s : truthy (trim s) = negb (blank s).
Proof.
  unfold trim.
  destruct (blank s) eqn:B; simpl.
  - apply trimStart_nil_blank in B. rewrite B. reflexivity.
  - destruct (rev (trimStart (rev (trimStart s)))) as [|c r] eqn:E;
      [|reflexivity].
    apply (f_equal (@rev _)) in E. rewrite rev_involutive in E. simpl in E.
    apply trimStart_nil_blank in E.
    rewrite blank_rev, trimStart_blank in E. congruence.
Qed.

Lemma blank_falsy s : truthy s = false -> blank s = true.
Proof. destruct s; [reflexivity|discriminate]. Qed.

Lemma not_blank_nonempty s : blank s = false -> s <> [].
Proof. intros B ->. discriminate. Qed.

(** ** Runs compose *)

Lemma exec_bind {A B} env (p : Prog A) (f : A -> Prog B) st :
  exec env (p ≫= f) st = andThen (exec env p st) (fun a => exec env (f a)).
Proof.
  revert st; induction p as [a|a k IH|k IH|r k IH]; intros st.
  - unfold andThen; simpl. now destruct (exec env (f a) st).
  - change (exec env (Do a k ≫= f) st)
      with (after (Did a) (exec env (k ≫= f) (apply a st))).
    rewrite IH. simpl. unfold andThen, after; simpl.
    now destruct (outcome (exec env k (apply a st))).
  - apply IH.
  - change (exec env (Await r k ≫= f) st)
      with (match answer env r with
            | Some x => after (Called r) (exec env (k x ≫= f) st)
            | None => {| events := [Called r]; final := st;
                         outcome := WaitingOn r |}
            end).
    simpl. destruct (answer env r) as [x|]; [|reflexivity].
    rewrite IH. unfold andThen, after; simpl.
    now destruct (outcome (exec env (k x) st)).
Qed.

Lemma andThen_ext {A B} (first : Run A) (f g : A -> AppState -> Run B) :
  (forall a st, f a st = g a st) -> andThen first f = andThen first g.
Proof.
  intros E. unfold andThen. destruct (outcome first); [|reflexivity].
  now rewrite E.
Qed.

Lemma andThen_done {A B} evs st (a : A) (f : A -> AppState -> Run B) :
  andThen {| events := evs; final := st; outcome := Done a |} f
  = {| events := evs ++ events (f a st);
       final := final (f a st);
       outcome := outcome (f a st) |}.
Proof. reflexivity. Qed.

Lemma andThen_waiting {A B} evs st r (f : A -> AppState -> Run B) :
  andThen {| events := evs; final := st; outcome := WaitingOn r |} f
  = {| events := evs; final := st; outcome := WaitingOn r |}.
Proof. reflexivity. Qed.

Lemma exec_act {A} env a (k : Prog A) st :
  exec env (act a;; k) st = after (Did a) (exec env k (apply a st)).
Proof. reflexivity. Qed.

Lemma exec_await env r st :
  exec env (await r) st =
  match answer env r with
  | Some x => {| events := [Called r]; final := st; outcome := Done x |}
  | None => {| events := [Called r]; final := st; outcome := WaitingOn r |}
  end.
Proof. unfold await. simpl. now destruct (answer env r). Qed.

Lemma calls_did a evs : calls (Did a :: evs) = calls evs.
Proof. reflexivity. Qed.

Lemma calls_called r evs : calls (Called r :: evs) = Called r :: calls evs.
Proof. reflexivity. Qed.

(** A handler that runs alone -- no other call is pending when it
    starts, and each of its calls is answered before anything else
    happens -- runs to its end, and the world it leaves is the one of
    the uninterrupted run: same final state, same events. *)
Lemma alone_is_uninterrupted (p : Prog unit) x t w :
  tasks w = [] ->
  let run := exec (everyAnswer x t) p (state w) in
  finished run = true /\
  drain (length (calls (events run))) x t (advance t p w)
  = {| state := final run; trace := trace w ++ events run; tasks := [] |}.
Proof.
  revert w. induction p as [a|a k IH|k IH|r k IH]; intros w E run; subst run.
  - split; [reflexivity|]. destruct w as [s tr ts]; simpl in *.
    now rewrite E, app_nil_r.
  - specialize (IH {| state := apply a (state w); trace := trace w ++ [Did a];
                      tasks := tasks w |} E).
    cbv zeta in IH. destruct IH as [F IH]. split; [exact F|].
    cbn [exec advance]. unfold after; cbn [events final].
    rewrite calls_did. cbn [state trace] in IH. rewrite IH.
    now rewrite <- app_assoc.
  - apply (IH t w E).
  - specialize (IH (x r) {| state := state w; trace := trace w ++ [Called r];
                            tasks := [] |} eq_refl).
    cbv zeta in IH. destruct IH as [F IH]. split; [exact F|].
    cbn [exec advance everyAnswer answer]. unfold after; cbn [events final].
    rewrite calls_called. cbn [length drain]. rewrite E.
    unfold settle. cbn [tasks app lookup list_lookup pending resume delete
                        list_delete state trace].
    cbn [state trace] in IH. change (clock (everyAnswer x t)) with t in *.
    rewrite IH. now rewrite <- app_assoc.
Qed.

(** ** The positioning step *)

Lemma asked_android P : isAndroid P = true -> asked P = [Called locationPermission].
Proof. unfold asked. now intros ->. Qed.

Lemma asked_elsewhere P : isAndroid P = false -> asked P = [].
Proof. unfold asked. now intros ->. Qed.

Lemma positioning_run rev P env st :
  PositioningRun P env st (exec env (positioning rev P) st).
Proof.
  assert (Q : forall pre, queried P env -> asked P = pre ->
            PositioningRun P env st
              (match answer env positionQuery with
               | Some (successCallback position) =>
                   {| events := pre ++ [Called positionQuery;
                                        Did (setLocation (Some (locOf position)))];
                      final := apply (setLocation (Some (locOf position))) st;
                      outcome := Done tt |}
               | Some _ =>
                   {| events := pre ++ [Called positionQuery; Did (setLocation None)];
                      final := apply (setLocation None) st;
                      outcome := Done tt |}
               | None =>
                   {| events := pre ++ [Called positionQuery];
                      final := st;
                      outcome := WaitingOn positionQuery |}
               end)).
  { intros pre HQ <-.
    destruct (answer env positionQuery) as [[position|code|err]|] eqn:EQ.
    - now apply fixed.
    - now apply (reportedError P env st code).
    - now apply (queryThrew P env st err).
    - now apply awaitsReport. }
  unfold positioning, try_catch, locationAttempt, positionPromise,
    onReport, requestAndroidPermission.
  destruct (isAndroid P) eqn:A.
  - simpl exec. fold locationPermission.
    destruct (answer env locationPermission) as [settled|] eqn:EP;
      [|now apply awaitsPermission].
    destruct settled as [[]|err].
    + specialize (Q [Called locationPermission]).
      simpl. fold positionQuery.
      destruct (answer env positionQuery) as [[position|code|e]|];
        apply Q; try (now intros _); now apply asked_android.
    + simpl. now apply (refused P env st (Fulfilled DENIED)).
    + simpl. now apply (refused P env st (Fulfilled NEVER_ASK_AGAIN)).
    + simpl. now apply (refused P env st (Rejected err)).
  - specialize (Q []). simpl exec. fold positionQuery.
    destruct (answer env positionQuery) as [[position|code|e]|];
      apply Q; try (intros ?; congruence); now apply asked_elsewhere.
Qed.

(** ** The recognition step *)

Lemma onRecognized_run rev env settled st :
  let v := shown (messages rev) (outcomeOf (messages rev) settled) in
  exec env (onRecognized rev settled) st =
  {| events := [Did (setExtractedText v)];
     final := apply (setExtractedText v) st;
     outcome := Done tt |}.
Proof.
  unfold onRecognized.
  destruct settled as [[[[t|]]|]|err]; try reflexivity.
  simpl outcomeOf.
  destruct (truthy t) eqn:T.
  - rewrite truthy_trim. now destruct (blank t).
  - now rewrite (blank_falsy t T).
Qed.

Lemma recognition_run rev env image st :
  exec env (recognition rev image) st =
  match answer env (recognize image) with
  | Some settled =>
      let v := shown (messages rev) (outcomeOf (messages rev) settled) in
      {| events := [Called (recognize image); Did (setExtractedText v)];
         final := apply (setExtractedText v) st;
         outcome := Done tt |}
  | None =>
      {| events := [Called (recognize image)];
         final := st;
         outcome := WaitingOn (recognize image) |}
  end.
Proof.
  unfold recognition, recognize. simpl exec.
  destruct (answer env (TextRecognition_recognize image)) as [settled|];
    [|reflexivity].
  now rewrite onRecognized_run.
Qed.

(** The run of [processImageAndLocation], step by step. *)
Lemma processing_run rev P captured image env st :
  exec env (processImageAndLocation rev P captured image) st =
  after (Did (setLoading true))
    (after (Did (setExtractedText []))
       (after (Did (setLocation None))
          (andThen
             (exec env (positioning rev P)
                (apply (setLocation None)
                   (apply (setExtractedText []) (apply (setLoading true) st))))
             (fun _ st1 =>
                andThen (exec env (recognition rev image) st1)
                  (fun _ st2 =>
                     after (Did (setLoading false))
                       (exec env (recordScan rev captured image)
                          (apply (setLoading false) st2))))))).
Proof.
  unfold processImageAndLocation.
  rewrite !exec_act. do 3 f_equal.
  rewrite exec_bind. apply andThen_ext; intros _ st1.
  rewrite exec_bind. now apply andThen_ext.
Qed.

Lemma recordScan_run rev captured image env st :
  let run := exec env (recordScan rev captured image) st in
  outcome run = Done tt /\
  extractedText (final run) = extractedText st /\
  location (final run) = location st /\
  loading (final run) = loading st /\
  imageUri (final run) = imageUri st /\
  forallb (fun e => negb (isCall e || isAlert e)) (events run) = true.
Proof. destruct rev; simpl; repeat split; reflexivity. Qed.

Lemma shown_nonempty rev settled :
  shown (messages rev) (outcomeOf (messages rev) settled) <> [].
Proof.
  destruct settled as [[[[t|]]|]|err]; simpl.
  - destruct (blank t) eqn:B; simpl.
    + destruct rev; discriminate.
    + now apply not_blank_nonempty.
  - destruct rev; discriminate.
  - destruct rev; discriminate.
  - destruct rev; discriminate.
Qed.

(** Unfolds a run of [processImageAndLocation] into the cases of its
    positioning step. *)
Ltac by_positioning rev P env :=
  rewrite processing_run;
  match goal with
  | |- context [exec env (positioning rev P) ?s] =>
      let H := fresh "Pos" in
      let pos := fresh "pos" in
      pose proof (positioning_run rev P env s) as H;
      remember (exec env (positioning rev P) s) as pos;
      destruct H;
      rewrite ?andThen_done, ?andThen_waiting, ?recognition_run
  end.

(** Then into the cases of the recogniser's answer. *)
Ltac by_recognition env image :=
  destruct (answer env (recognize image)) as [got|] eqn:Got;
  cbv zeta; rewrite ?andThen_done, ?andThen_waiting.

(** C2: once processing has finished, the text cell holds exactly the
    outcome of the recogniser's answer -- the text when it has
    non-blank content, the empty outcome when the text is missing or
    blank, the failure with its reason when the invocation threw -- it
    is not the pending value, and the loading flag is down. *)
Theorem recognition_outcome_resolved rev P captured image env st :
  let run := exec env (processImageAndLocation rev P captured image) st in
  finished run = true ->
  exists settled,
    answer env (recognize image) = Some settled /\
    extractedText (final run)
      = shown (messages rev) (outcomeOf (messages rev) settled) /\
    extractedText (final run) <> [] /\
    loading (final run) = false.
Proof.
  intros run. subst run. by_positioning rev P env;
    try (simpl; discriminate).
  all: by_recognition env image;
    [intros _; exists got | simpl; discriminate].
  all: pose proof (shown_nonempty rev got) as NE.
  all: destruct rev; simpl; auto.
Qed.

Lemma recognition_outcome_resolved_scenario_A :
  let env :=
    scenario (Some (Fulfilled GRANTED)) None (Some (successCallback newYork))
      (Some (read invoice)) None 0 in
  let run :=
    exec env (processImageAndLocation AppJs pixel initialState (lit "scan.jpg"))
      initialState in
  exists settled,
    answer env (recognize (lit "scan.jpg")) = Some settled /\
    extractedText (final run) = shown english (outcomeOf english settled) /\
    extractedText (final run) <> [] /\
    loading (final run) = false.
Proof.
  apply (recognition_outcome_resolved AppJs pixel initialState (lit "scan.jpg")).
  reflexivity.
Defined.

(** Scenario A of the specification, evaluated: the finished run holds
    the recognised text and the reported latitude and longitude. *)
#[warnings="-inexact-float"]
Example scenario_A :
  let env :=
    scenario (Some (Fulfilled GRANTED)) None (Some (successCallback newYork))
      (Some (read invoice)) None 0 in
  let run :=
    exec env (processImageAndLocation AppJs pixel initialState (lit "scan.jpg"))
      initialState in
  finished run = true /\
  extractedText (final run)
    = lit "INVOICE #102" ++ [10%N] ++ lit "TOTAL 45.00" /\
  location (final run) = Some {| latitude := 40.71; longitude := -74.00 |} /\
  loading (final run) = false.
Proof. repeat split. Qed.

(** ** Positioning *)

Ltac contradictory :=
  unfold queried in *;
  repeat match goal with
  | H : _ /\ _ |- _ => destruct H
  | H : exists _, _ |- _ => destruct H
  | H : ?a = true -> _, A : ?a = true |- _ => specialize (H A)
  end;
  try congruence.

(** Closes a goal about an unfolded run. *)
Ltac settle_run rev P :=
  destruct rev; simpl; rewrite ?existsb_app, ?in_app_iff;
  unfold asked; destruct (isAndroid P); simpl; auto 10.

Ltac close_run rev P :=
  unfold finished; destruct rev; simpl; rewrite ?in_app_iff;
  unfold asked; destruct (isAndroid P); simpl;
  intuition (try discriminate; try congruence; eauto).

(** With two runs in flight on Android, the position service times
    out for the second photo and then reports a fix for the first: the
    run of the second photo, whose own query failed, finishes with
    that fix as its coordinate. *)
#[warnings="-inexact-float"]
Lemma failed_run_holds_late_fix :
  map pending (tasks bothLocating) = [positionQuery; positionQuery] /\
  map pending (tasks secondUnlocated) = [positionQuery; recognize secondPhoto] /\
  location (state secondUnlocated) = None /\
  map pending (tasks lateFix) = [recognize secondPhoto; recognize firstPhoto] /\
  map pending (tasks secondFinished) = [recognize firstPhoto] /\
  imageUri (state secondFinished) = Some secondPhoto /\
  extractedText (state secondFinished) = lit "SECOND" /\
  loading (state secondFinished) = false /\
  location (state secondFinished)
    = Some {| latitude := 40.71; longitude := -74 |}.
Proof. repeat split. Qed.

(** C4, as the code has it, for a run that no other acquisition
    overlaps: the record's coordinate is present only if the position
    service reported a fix -- whose latitude and longitude it holds --
    to the success callback of a query made with a 10000 ms time-out
    and a 10000 ms maximum age, and, on Android, the location
    permission request returned GRANTED; off Android the run asks for
    no permission.  On Android a permission that is not granted leaves
    the coordinate absent and the service unqueried.  Every positioning
    failure leaves the coordinate absent, raises no alert, and the run
    goes on to the recogniser and finishes on its answer alone.  Such
    a run is what the component does when no other call is pending at
    its start and each of its calls is answered before anything else
    happens. *)
Theorem coordinate_only_from_granted_fix rev P captured image env st :
  let run := exec env (processImageAndLocation rev P captured image) st in
  timeout positionOptions = 10000 /\
  maximumAge positionOptions = 10000 /\
  (forall c, location (final run) = Some c ->
     (isAndroid P = true ->
      answer env locationPermission = Some (Fulfilled GRANTED)) /\
     In (Called positionQuery) (events run) /\
     exists position,
       answer env positionQuery = Some (successCallback position) /\
       c = locOf position /\
       latitude c = latitude (coords position) /\
       longitude c = longitude (coords position)) /\
  (positioningFailed P env ->
     location (final run) = None /\
     existsb isAlert (events run) = false /\
     In (Called (recognize image)) (events run) /\
     forall settled, answer env (recognize image) = Some settled ->
       finished run = true /\
       extractedText (final run)
         = shown (messages rev) (outcomeOf (messages rev) settled) /\
       loading (final run) = false) /\
  (isAndroid P = true ->
   answer env locationPermission <> Some (Fulfilled GRANTED) ->
   location (final run) = None /\
   ~ In (Called positionQuery) (events run)) /\
  (isAndroid P = false -> ~ In (Called locationPermission) (events run)) /\
  (forall x t w,
     tasks w = [] ->
     state w = st ->
     env = everyAnswer x t ->
     drain (length (calls (events run))) x t
       (advance t (processImageAndLocation rev P captured image) w)
     = {| state := final run; trace := trace w ++ events run; tasks := [] |}).
Proof.
  intros run. subst run. do 2 (split; [reflexivity|]).
  split; [|split; [|split; [|split]]];
    [| | | |intros x t w E <- ->; now apply alone_is_uninterrupted].
  - intros c. by_positioning rev P env; try (simpl; discriminate).
    all: by_recognition env image; try (simpl; discriminate).
    all: try (destruct rev; simpl; discriminate).
    all: intros E; split; [assumption|]; split;
      [ simpl; rewrite !in_app_iff; simpl; tauto |].
    all: exists position; split; [assumption|].
    all: assert (c = locOf position) as ->
      by (destruct rev; simpl in E; congruence).
    all: repeat split.
  - intros F. by_positioning rev P env.
    all: destruct F as [F|[F|F]]; try (exfalso; now contradictory).
    all: by_recognition env image.
    all: do 3 (split; [now settle_run rev P|]).
    all: intros s' E'; try congruence.
    all: assert (s' = got) as -> by congruence.
    all: repeat split; now settle_run rev P.
  - intros A NG. by_positioning rev P env; try (exfalso; now contradictory).
    all: by_recognition env image.
    all: unfold locationPermission, positionQuery, recognize in *.
    all: split; [now settle_run rev P|].
    all: destruct rev; simpl; rewrite ?in_app_iff; unfold asked; rewrite ?A;
      simpl; intuition discriminate.
  - intros A. by_positioning rev P env; try congruence.
    all: by_recognition env image.
    all: unfold locationPermission, positionQuery, recognize in *.
    all: destruct rev; simpl; rewrite ?in_app_iff; unfold asked; rewrite ?A;
      simpl; intuition discriminate.
Qed.

(** Scenario C of the specification: the position service times out
    (error code 3); the run still finishes on the recognised text. *)
Lemma coordinate_only_from_granted_fix_scenario_C :
  let env :=
    scenario (Some (Fulfilled GRANTED)) None (Some (errorCallback 3))
      (Some (read invoice)) None 0 in
  let run :=
    exec env (processImageAndLocation AppJs pixel initialState (lit "scan.jpg"))
      initialState in
  location (final run) = None /\
  existsb isAlert (events run) = false /\
  In (Called (recognize (lit "scan.jpg"))) (events run) /\
  finished run = true /\
  extractedText (final run) = invoice.
Proof.
  pose proof
    (coordinate_only_from_granted_fix AppJs pixel initialState (lit "scan.jpg")
       (scenario (Some (Fulfilled GRANTED)) None (Some (errorCallback 3))
          (Some (read invoice)) None 0) initialState) as (_ & _ & _ & H & _).
  destruct H as (L & Q & R & S).
  { right; left. split; [intros _; reflexivity | now exists 3]. }
  destruct (S (read invoice) eq_refl) as (F & T & _).
  repeat split; assumption.
Defined.

(** C10: the executor of the position promise calls [resolve] in its
    success callback and in its error callback and never [reject]; so
    whenever the service reports through either callback (the query
    having been made), the [try] block completes normally, the
    positioning step settles, and the recogniser is called. *)
Theorem position_promise_always_resolves rev P captured image env st report :
  queried P env ->
  answer env positionQuery = Some report ->
  (forall err, report <> callThrew err) ->
  (forall A (resolve : unit -> Prog A) (reject reject' : JsError -> Prog A),
     onReport resolve reject report = onReport resolve reject' report /\
     exists a, onReport resolve reject report = Do a (resolve tt)) /\
  outcome (exec env (locationAttempt rev P) st) = Done (Normal tt) /\
  outcome (exec env (positioning rev P) st) = Done tt /\
  In (Called (recognize image))
    (events (exec env (processImageAndLocation rev P captured image) st)).
Proof.
  intros Q E NT. split; [|split; [|split]].
  - intros A resolve reject reject'.
    destruct report as [position|code|err];
      [split; [reflexivity|eauto] .. | now destruct (NT err)].
  - unfold locationAttempt, positionPromise, requestAndroidPermission.
    unfold queried in Q. fold positionQuery locationPermission.
    destruct (isAndroid P); simpl exec;
      rewrite ?(Q eq_refl); simpl; rewrite E;
      destruct report as [position|code|err]; try reflexivity;
      now destruct (NT err).
  - destruct (positioning_run rev P env st); contradictory;
      try reflexivity; now destruct (NT err).
  - by_positioning rev P env; contradictory.
    all: try (now destruct (NT err)).
    all: by_recognition env image; settle_run rev P.
Qed.

Lemma position_promise_always_resolves_on_timeout :
  let env :=
    scenario (Some (Fulfilled GRANTED)) None (Some (errorCallback 3)) None None 0 in
  outcome (exec env (positioning AppJs pixel) initialState) = Done tt /\
  In (Called (recognize (lit "scan.jpg")))
    (events (exec env
               (processImageAndLocation AppJs pixel initialState (lit "scan.jpg"))
               initialState)).
Proof.
  refine (proj2 (proj2
    (position_promise_always_resolves AppJs pixel initialState (lit "scan.jpg")
       (scenario (Some (Fulfilled GRANTED)) None (Some (errorCallback 3)) None None 0)
       initialState (errorCallback 3) _ _ _))).
  - intros _. reflexivity.
  - reflexivity.
  - discriminate.
Defined.

(** ** Order of the two attempts *)

(** While the position query is in flight the recogniser has not been
    called, though it would answer at once: the two attempts are not
    launched together. *)
Lemma recognition_waits_for_positioning :
  let env :=
    scenario (Some (Fulfilled GRANTED)) None None (Some (read invoice)) None 0 in
  let run :=
    exec env (processImageAndLocation AppJs pixel initialState (lit "scan.jpg"))
      initialState in
  events run
    = [Did (setLoading true); Did (setExtractedText []); Did (setLocation None);
       Called locationPermission; Called positionQuery] /\
  outcome run = WaitingOn positionQuery /\
  existsb (fun e => match e with
                    | Called (TextRecognition_recognize _) => true
                    | _ => false
                    end) (events run) = false.
Proof. repeat split. Qed.

(** C8, as the code has it: the two attempts run one after the other.
    The recogniser is called exactly when the positioning step has
    settled, whatever its result, and its call follows every event of
    that step; the run is finished, and the loading flag down, only
    when both outcomes are known. *)
Theorem recognition_follows_positioning rev P captured image env st :
  let run := exec env (processImageAndLocation rev P captured image) st in
  let pos :=
    exec env (positioning rev P)
      (apply (setLocation None)
         (apply (setExtractedText []) (apply (setLoading true) st))) in
  (In (Called (recognize image)) (events run) <-> finished pos = true) /\
  (exists rest,
     events run
       = [Did (setLoading true); Did (setExtractedText []); Did (setLocation None)]
         ++ events pos ++ rest /\
     (finished pos = true -> hd_error rest = Some (Called (recognize image))) /\
     (finished pos = false -> rest = [])) /\
  (finished run = true <->
     finished pos = true /\ answer env (recognize image) <> None) /\
  (loading (final run) = false <-> finished run = true).
Proof.
  intros run pos. subst run pos. by_positioning rev P env.
  all: by_recognition env image.
  all: unfold locationPermission, positionQuery, recognize in *.
  all: split; [now close_run rev P|].
  all: split;
    [eexists; split;
       [simpl; rewrite <- ?app_assoc; simpl; reflexivity
       |split; unfold finished; simpl; congruence]|].
  all: split; now close_run rev P.
Qed.

(** ** Acquisition *)

Lemma exec_reset {A} env (k : Prog A) st :
  exec env (resetPipeline;; k) st =
  after (Did (setSaveStatus None))
    (after (Did (setCopyStatus None))
       (after (Did (setExtractedText []))
          (after (Did (setLocation None))
             (after (Did (setImageUri None))
                (after (Did (setImageSource None))
                   (exec env k (cleared st))))))).
Proof. reflexivity. Qed.

Lemma events_after {A} e (run : Run A) :
  events (after e run) = e :: events run.
Proof. reflexivity. Qed.

Lemma first_call {A} env r (k : Answer r -> Prog A) st :
  exists rest, events (exec env (Await r k) st) = Called r :: rest.
Proof. simpl. destruct (answer env r); eexists; reflexivity. Qed.

(** Every acquisition is the reset followed by a call: the permission
    request on Android, the chooser elsewhere. *)
Lemma acquire_shape rev P src captured :
  exists r k,
    acquire rev P src captured = (resetPipeline;; Await r k) /\
    r = (if isAndroid P
         then PermissionsAndroid_request (permissionOf src)
         else chooserOf src).
Proof.
  destruct src; unfold acquire, handleTakePhoto, handleSelectFromGallery;
    destruct (isAndroid P); do 2 eexists; split; reflexivity.
Qed.

(** The reset of a new acquisition leaves the loading flag of the run
    still in flight up, and cancels nothing: the text of the first
    photo arrives while the chooser of the new acquisition is open and
    is shown with no image. *)
Lemma stale_text_shown_after_reset :
  loading (state recognising) = true /\
  state retaken = cleared (state recognising) /\
  loading (state retaken) = true /\
  map pending (tasks retaken) = [recognize firstPhoto; launchCamera] /\
  imageUri (state lateOnReset) = None /\
  extractedText (state lateOnReset) = invoice /\
  loading (state lateOnReset) = false /\
  map pending (tasks lateOnReset) = [launchCamera].
Proof. repeat split. Qed.

(** C6, as the code has it: both acquisition handlers begin with six
    resets -- status messages, text, coordinate, image and its source
    -- before any permission request or chooser call: the events of
    every run start with them, and the state shown when the handler
    first suspends holds none of the six.  The reset leaves the loading
    flag and the history as they were and every pending call of an
    earlier run in place. *)
Theorem acquisition_resets_first rev P src captured env st t w :
  let run := exec env (acquire rev P src captured) st in
  (exists r rest,
     events run = map Did resetActions ++ Called r :: rest /\
     (r = PermissionsAndroid_request (permissionOf src) \/ r = chooserOf src)) /\
  fold_left (fun s a => apply a s) resetActions st = cleared st /\
  state (press (acquire rev P src) t w) = cleared (state w) /\
  (exists r,
     trace (press (acquire rev P src) t w)
       = trace w ++ map Did resetActions ++ [Called r]) /\
  imageUri (cleared st) = None /\
  imageSource (cleared st) = None /\
  extractedText (cleared st) = [] /\
  location (cleared st) = None /\
  saveStatus (cleared st) = None /\
  copyStatus (cleared st) = None /\
  loading (cleared st) = loading st /\
  history (cleared st) = history st /\
  exists task, tasks (press (acquire rev P src) t w) = tasks w ++ [task].
Proof.
  intros run. subst run. split; [|split; [reflexivity|]].
  - destruct (acquire_shape rev P src captured) as (r & k & -> & Hr).
    destruct (first_call env r k (cleared st)) as [rest E].
    exists r, rest. split.
    + now rewrite exec_reset, !events_after, E.
    + rewrite Hr. destruct (isAndroid P); auto.
  - unfold press.
    destruct (acquire_shape rev P src (state w)) as (r & k & -> & _).
    split; [reflexivity|]. split.
    + exists r. simpl. now rewrite <- !app_assoc.
    + repeat split. eexists. reflexivity.
Qed.

Lemma permission_run env permission st :
  exec env (requestAndroidPermission permission) st =
  match answer env (PermissionsAndroid_request permission) with
  | Some settled =>
      {| events := [Called (PermissionsAndroid_request permission)];
         final := st;
         outcome := Done match settled with
                         | Fulfilled GRANTED => true
                         | _ => false
                         end |}
  | None =>
      {| events := [Called (PermissionsAndroid_request permission)];
         final := st;
         outcome := WaitingOn (PermissionsAndroid_request permission) |}
  end.
Proof.
  unfold requestAndroidPermission. simpl.
  now destruct (answer env (PermissionsAndroid_request permission))
    as [[[]|]|].
Qed.

(** Off Android no permission is asked for: the chooser is called
    though the permission service would refuse, and its error ends in
    the chooser's alert. *)
Lemma chooser_called_without_permission :
  let refusal :=
    {| didCancel := false; errorCode := Some (lit "permission");
       errorMessage := None; assets := None |} in
  let env := scenario (Some (Fulfilled DENIED)) (Some refusal) None None None 0 in
  events (exec env (acquire AppJs iPhone camera initialState) initialState)
  = map Did resetActions
    ++ [Called launchCamera;
        Did (Alert_alert (lit "Camera Error") (lit "Unknown error"))].
Proof. reflexivity. Qed.

(** C5, as the code has it: on Android, when the permission of the
    source is not granted (refused, or the request failed), the
    acquisition ends after the permission alert with a cleared state
    and the chooser is never called; on the other platforms no
    permission is asked for and the chooser is always called. *)
Theorem refused_acquisition_skips_chooser rev P src captured env st :
  let run := exec env (acquire rev P src captured) st in
  (isAndroid P = true ->
   forall settled,
     answer env (PermissionsAndroid_request (permissionOf src)) = Some settled ->
     settled <> Fulfilled GRANTED ->
     events run
       = map Did resetActions
         ++ [Called (PermissionsAndroid_request (permissionOf src));
             refusalAlert rev src] /\
     finished run = true /\
     final run = cleared st) /\
  (isAndroid P = false ->
   exists rest,
     events run = map Did resetActions ++ Called (chooserOf src) :: rest).
Proof.
  intros run. subst run. split; intros A.
  - intros settled E NG.
    destruct src; unfold acquire, handleTakePhoto, handleSelectFromGallery;
      rewrite exec_reset, A, exec_bind, permission_run; simpl in E; rewrite E;
      rewrite andThen_done.
    all: destruct settled as [[]|err]; try (now destruct NG).
    all: simpl negb; cbv iota; rewrite !events_after.
    all: split; [reflexivity|split; reflexivity].
  - destruct (acquire_shape rev P src captured) as (r & k & -> & Hr).
    rewrite A in Hr. subst r.
    destruct (first_call env (chooserOf src) k (cleared st)) as [rest E].
    exists rest. now rewrite exec_reset, !events_after, E.
Qed.

Lemma refused_acquisition_skips_chooser_on_pixel :
  let env := scenario (Some (Fulfilled NEVER_ASK_AGAIN)) None None None None 0 in
  let run := exec env (acquire Part001 pixel gallery initialState) initialState in
  events run
    = map Did resetActions
      ++ [Called (PermissionsAndroid_request READ_EXTERNAL_STORAGE);
          refusalAlert Part001 gallery] /\
  finished run = true /\
  final run = cleared initialState.
Proof.
  refine (proj1
    (refused_acquisition_skips_chooser Part001 pixel gallery initialState
       (scenario (Some (Fulfilled NEVER_ASK_AGAIN)) None None None None 0)
       initialState) _ (Fulfilled NEVER_ASK_AGAIN) _ _).
  - reflexivity.
  - reflexivity.
  - discriminate.
Defined.

(** ** The result actions *)

(** A photo whose text came out empty is still saved to the gallery:
    [handleSavePhoto] looks at the image and its source only. *)
Lemma photo_saved_despite_empty_text :
  let scan :=
    scenario None (Some (picked (lit "photo.jpg"))) (Some (errorCallback 2))
      (Some (read (lit "   "))) None 0 in
  let record := final (exec scan (acquire AppJs iPhone camera initialState) initialState) in
  let saving := scenario None None None None (Some (Fulfilled tt)) 0 in
  let run := exec saving (handleSavePhoto AppJs iPhone record) record in
  extractedText record = lit "No text detected." /\
  outcomeOf english (read (lit "   ")) = Empty /\
  events run
    = [Did (setSaveStatus None);
       Called (CameraRoll_save (lit "photo.jpg"));
       Did (setSaveStatus (Some (lit "Photo saved to gallery.")));
       Did (Alert_alert (lit "Success") (lit "Photo saved to gallery."))] /\
  saveStatus (final run) = Some (lit "Photo saved to gallery.").
Proof. repeat split. Qed.

Lemma rejected_english settled :
  (forall content, outcomeOf english settled <> Recognized content) ->
  textRejected (shown english (outcomeOf english settled)) = true.
Proof.
  intros NR. destruct (outcomeOf english settled) as [content| |reason].
  - now destruct (NR content).
  - reflexivity.
  - reflexivity.
Qed.

(** C1, as the code has it: the three text actions do nothing -- no
    call, no state change -- when the text cell is empty or starts with
    "No text" or "OCR failed", which in src/App.js is the case after
    every empty or failed recognition; [handleSavePhoto] does nothing
    when there is no image or its source is not the camera, and does
    not look at the recognition outcome: for a camera image it is the
    same program whatever the text, which calls the camera roll
    whenever the storage permission does not stand in the way and, on
    Android when the permission is not granted, ends after the
    permission alert. *)
Theorem rejected_actions_do_nothing rev P RNFS captured env st :
  (isCamera (imageSource captured) = false
   \/ truthy_opt (imageUri captured) = false ->
   exec env (handleSavePhoto rev P captured) st = idle st) /\
  (textRejected (extractedText captured) = true ->
   exec env (handleShareText rev captured) st = idle st /\
   exec env (handleCopyText rev captured) st = idle st /\
   exec env (handleSaveTextToFile rev P RNFS captured) st = idle st) /\
  (forall settled,
     (forall content, outcomeOf english settled <> Recognized content) ->
     extractedText captured = shown english (outcomeOf english settled) ->
     textRejected (extractedText captured) = true) /\
  (forall image,
     imageUri captured = Some image ->
     truthy image = true ->
     imageSource captured = Some camera ->
     let run := exec env (handleSavePhoto rev P captured) st in
     (forall other,
        imageUri other = imageUri captured ->
        imageSource other = imageSource captured ->
        handleSavePhoto rev P other = handleSavePhoto rev P captured) /\
     (allowed P env WRITE_EXTERNAL_STORAGE ->
      In (Called (CameraRoll_save image)) (events run)) /\
     (forall settled,
        isAndroid P = true ->
        answer env (PermissionsAndroid_request WRITE_EXTERNAL_STORAGE)
          = Some settled ->
        settled <> Fulfilled GRANTED ->
        events run
        = [Did (setSaveStatus None);
           Called (PermissionsAndroid_request WRITE_EXTERNAL_STORAGE);
           Did (Alert_alert (permissionDenied (messages rev))
                  (storageRequired (messages rev)))])).
Proof.
  split; [|split; [|split]].
  - unfold handleSavePhoto.
    destruct (imageUri captured) as [image|]; [|reflexivity].
    simpl truthy_opt. intros [-> | ->]; [|reflexivity].
    now rewrite orb_true_r.
  - intros R. unfold handleShareText, handleCopyText, handleSaveTextToFile.
    now rewrite R.
  - intros settled NR ->. now apply rejected_english.
  - intros image I T C run. subst run. split; [|split].
    + intros other I' C'. unfold handleSavePhoto. now rewrite I', C'.
    + intros A. unfold handleSavePhoto, allowed in *. rewrite I, T, C.
      cbn [negb orb isCamera]. rewrite exec_act, events_after. cbv zeta.
      right. destruct (isAndroid P).
      * rewrite exec_bind, permission_run, (A eq_refl), andThen_done.
        cbv beta; cbn [negb events app].
        right. rewrite exec_bind, (exec_await env (CameraRoll_save image)).
        destruct (answer env (CameraRoll_save image)) as [saved|];
          [rewrite andThen_done|rewrite andThen_waiting]; now left.
      * rewrite exec_bind, (exec_await env (CameraRoll_save image)).
        destruct (answer env (CameraRoll_save image)) as [saved|];
          [rewrite andThen_done|rewrite andThen_waiting]; now left.
    + intros settled A E NG. unfold handleSavePhoto. rewrite I, T, C.
      cbn [negb orb isCamera].
      rewrite exec_act, A, exec_bind, permission_run, E, andThen_done.
      destruct settled as [[]|err]; try (now destruct NG); reflexivity.
Qed.

Lemma rejected_actions_do_nothing_after_failure :
  let failure := Rejected {| message := Some (lit "model not loaded") |} in
  let scan :=
    scenario None (Some (picked (lit "photo.jpg"))) (Some (errorCallback 2))
      (Some failure) None 0 in
  let record :=
    final (exec scan (acquire AppJs iPhone gallery initialState) initialState) in
  let env := scenario None None None None (Some (Fulfilled tt)) 0 in
  extractedText record = lit "OCR failed: model not loaded" /\
  exec env (handleSavePhoto AppJs iPhone record) record = idle record /\
  exec env (handleShareText AppJs record) record = idle record /\
  exec env (handleCopyText AppJs record) record = idle record /\
  exec env (handleSaveTextToFile AppJs iPhone sandbox record) record = idle record.
Proof.
  split; [reflexivity|].
  pose proof
    (rejected_actions_do_nothing AppJs iPhone sandbox
       (final (exec
          (scenario None (Some (picked (lit "photo.jpg"))) (Some (errorCallback 2))
             (Some (Rejected {| message := Some (lit "model not loaded") |}))
             None 0)
          (acquire AppJs iPhone gallery initialState) initialState))
       (scenario None None None None (Some (Fulfilled tt)) 0)
       (final (exec
          (scenario None (Some (picked (lit "photo.jpg"))) (Some (errorCallback 2))
             (Some (Rejected {| message := Some (lit "model not loaded") |}))
             None 0)
          (acquire AppJs iPhone gallery initialState) initialState)))
    as (S & T & _).
  split; [apply S; left; reflexivity|].
  apply T. reflexivity.
Defined.

(** In [Part001] the messages were translated and the prefixes tested
    by the gate were not: after an empty recognition the share action
    hands the "no text" message to the share sheet. *)
Example translated_message_passes_the_gate :
  let scan :=
    scenario (Some (Fulfilled GRANTED)) (Some (picked (lit "photo.jpg")))
      (Some (errorCallback 2)) (Some (read (lit "   "))) None 0 in
  let record :=
    final (exec scan (acquire Part001 pixel camera initialState) initialState) in
  let env := scenario None None None None (Some (Fulfilled tt)) 0 in
  extractedText record = lit "Nije pronađen tekst." /\
  textRejected (extractedText record) = false /\
  events (exec env (handleShareText Part001 record) record)
    = [Called (Share_share (lit "Nije pronađen tekst."))].
Proof. repeat split. Qed.

(** ** Export file names *)

Lemma uint_units d :
  let s := list_ascii_of_string (NilEmpty.string_of_uint d) in
  decode s = map N_of_ascii s /\ forallb numeral (decode s) = true.
Proof.
  induction d as [|d [E F]|d [E F]|d [E F]|d [E F]|d [E F]|d [E F]
                  |d [E F]|d [E F]|d [E F]|d [E F]];
    simpl in *; rewrite ?E in *; rewrite ?F; split; reflexivity.
Qed.

Lemma int_units d :
  let s := list_ascii_of_string (NilEmpty.string_of_int d) in
  decode s = map N_of_ascii s /\ forallb numeral (decode s) = true.
Proof.
  destruct d as [d|d]; simpl.
  - apply uint_units.
  - destruct (uint_units d) as [E F]. simpl in E, F.
    rewrite E in *. now rewrite F.
Qed.

Lemma ofInt_numeral z : forallb numeral (ofInt z) = true.
Proof. apply int_units. Qed.

Lemma N_of_ascii_inj a b : N_of_ascii a = N_of_ascii b -> a = b.
Proof.
  intros E. rewrite <- (ascii_N_embedding a), <- (ascii_N_embedding b).
  now rewrite E.
Qed.

Lemma units_inj l1 l2 : map N_of_ascii l1 = map N_of_ascii l2 -> l1 = l2.
Proof.
  revert l2; induction l1 as [|a l1 IH]; intros [|b l2] E;
    try discriminate; [reflexivity|].
  injection E as E1 E2. f_equal; [now apply N_of_ascii_inj | now apply IH].
Qed.

Lemma list_ascii_of_string_inj s1 s2 :
  list_ascii_of_string s1 = list_ascii_of_string s2 -> s1 = s2.
Proof.
  intros E.
  rewrite <- (string_of_list_ascii_of_string s1),
          <- (string_of_list_ascii_of_string s2).
  now rewrite E.
Qed.

(** Distinct instants print differently. *)
Lemma ofInt_inj t1 t2 : ofInt t1 = ofInt t2 -> t1 = t2.
Proof.
  unfold ofInt, lit. intros E.
  rewrite (proj1 (int_units (Z.to_int t1))),
          (proj1 (int_units (Z.to_int t2))) in E.
  apply units_inj in E.
  apply list_ascii_of_string_inj in E.
  apply (f_equal NilEmpty.int_of_string) in E.
  rewrite !NilEmpty.isi in E. injection E as E.
  apply (f_equal Z.of_int) in E. now rewrite !DecimalZ.of_to in E.
Qed.

Lemma last_separator (c : N) x1 x2 a1 a2 :
  ~ In c a1 -> ~ In c a2 -> x1 ++ c :: a1 = x2 ++ c :: a2 -> a1 = a2.
Proof.
  intros N1 N2. revert x2.
  induction x1 as [|d x1 IH]; intros [|e x2] E; simpl in E.
  - now injection E.
  - injection E as _ E. subst a1. destruct N1.
    apply in_or_app. right. now left.
  - injection E as _ E. subst a2. destruct N2.
    apply in_or_app. right. now left.
  - injection E as _ E. now apply (IH x2).
Qed.

Lemma numeral_suffix t : ~ In 95%N (ofInt t ++ lit ".txt").
Proof.
  intros H. apply in_app_or in H as [H|H].
  - pose proof (ofInt_numeral t) as F.
    rewrite forallb_forall in F. now specialize (F _ H).
  - simpl in H. intuition discriminate.
Qed.

Lemma exportName_inj t1 t2 : exportName t1 = exportName t2 -> t1 = t2.
Proof.
  unfold exportName. intros E.
  apply app_inv_head in E. apply app_inv_tail in E. now apply ofInt_inj.
Qed.

Lemma exportPath_inj d1 d2 t1 t2 :
  exportPath d1 t1 = exportPath d2 t2 -> t1 = t2.
Proof.
  unfold exportPath, exportName. intros E.
  change (lit "/" ++ lit "ocr_result_" ++ ofInt t1 ++ lit ".txt")
    with (lit "/ocr_result" ++ 95%N :: ofInt t1 ++ lit ".txt") in E.
  change (lit "/" ++ lit "ocr_result_" ++ ofInt t2 ++ lit ".txt")
    with (lit "/ocr_result" ++ 95%N :: ofInt t2 ++ lit ".txt") in E.
  rewrite !app_assoc in E.
  apply last_separator in E; try apply numeral_suffix.
  apply app_inv_tail in E. now apply ofInt_inj.
Qed.

Lemma writes_app evs1 evs2 : writes (evs1 ++ evs2) = writes evs1 ++ writes evs2.
Proof.
  induction evs1 as [|[a|[]] evs1 IH]; simpl; try assumption;
    [reflexivity | now rewrite IH].
Qed.

Lemma writes_did a evs : writes (Did a :: evs) = writes evs.
Proof. reflexivity. Qed.

Lemma writes_permission p evs :
  writes (Called (PermissionsAndroid_request p) :: evs) = writes evs.
Proof. reflexivity. Qed.

Lemma writes_in evs path contents encoding :
  In (Called (RNFS_writeFile path contents encoding)) evs
  <-> In (path, contents, encoding) (writes evs).
Proof.
  induction evs as [|[a|r] evs IH]; simpl; [tauto| |].
  - rewrite <- IH. intuition discriminate.
  - destruct r; simpl; rewrite <- IH; try (intuition discriminate).
    intuition congruence.
Qed.

Lemma written_store evs files : written evs files = store (writes evs) files.
Proof.
  revert files; induction evs as [|[a|[]] evs IH]; intros files; simpl;
    try apply IH; reflexivity.
Qed.

Lemma writeExport_writes rev captured dir env st :
  writes (events (exec env (writeExport rev captured dir) st))
  = [(exportPath dir (clock env), extractedText captured, lit "utf8")].
Proof.
  unfold writeExport. simpl.
  now destruct (answer env _) as [[|]|].
Qed.

(** A run of [handleSaveTextToFile] writes nothing, or one file: the
    text, as UTF-8, under the timestamped name in the documents or the
    downloads directory. *)
Lemma export_writes rev P RNFS captured env st :
  let run := exec env (handleSaveTextToFile rev P RNFS captured) st in
  writes (events run) = []
  \/ (textRejected (extractedText captured) = false /\
      exists dir,
        (dir = DocumentDirectoryPath RNFS \/ DownloadDirectoryPath RNFS = Some dir) /\
        writes (events run)
        = [(exportPath dir (clock env), extractedText captured, lit "utf8")]).
Proof.
  intros run. subst run. unfold handleSaveTextToFile.
  destruct (textRejected (extractedText captured)); [now left|].
  rewrite exec_act, events_after, writes_did.
  assert (D : forall st',
    let ws := writes (events (exec env
                (writeExport rev captured (DocumentDirectoryPath RNFS)) st')) in
    ws = []
    \/ (false = false /\
        exists dir,
          (dir = DocumentDirectoryPath RNFS
           \/ DownloadDirectoryPath RNFS = Some dir) /\
          ws = [(exportPath dir (clock env), extractedText captured, lit "utf8")]))
    by (intros st'; right; split; [reflexivity|];
        exists (DocumentDirectoryPath RNFS); split; [now left|];
        apply writeExport_writes).
  cbv zeta in D.
  destruct rev.
  - destruct (DownloadDirectoryPath RNFS) as [downloads|] eqn:DL; [|apply D].
    destruct (isAndroid P && truthy downloads); [|apply D].
    rewrite exec_bind, permission_run.
    destruct (answer env _) as [[[]|]|];
      rewrite ?andThen_done, ?andThen_waiting; cbn [events app negb];
      rewrite ?writes_permission; try (now left).
    right. split; [reflexivity|]. exists downloads. split; [now right|].
    apply writeExport_writes.
  - destruct (isAndroid P); [|apply D].
    destruct (Version P >=? 30); [apply D|].
    destruct (DownloadDirectoryPath RNFS) as [downloads|] eqn:DL; [|apply D].
    destruct (truthy downloads); [|apply D].
    rewrite exec_bind, permission_run.
    destruct (answer env _) as [[[]|]|];
      rewrite ?andThen_done, ?andThen_waiting; cbn [events app];
      rewrite ?writes_permission; try (now left).
    + right. split; [reflexivity|]. exists downloads. split; [now right|].
      apply writeExport_writes.
    + rewrite exec_act, events_after, writes_did. apply D.
    + rewrite exec_act, events_after, writes_did. apply D.
    + rewrite exec_act, events_after, writes_did. apply D.
Qed.

(** Two exports of one record at the same clock reading name the same
    file: the second write replaces the first. *)
Lemma same_instant_same_file :
  let env := storingAt 1700000000000 in
  let first :=
    exec env (handleSaveTextToFile AppJs iPhone sandbox invoiceRecord)
      invoiceRecord in
  let second :=
    exec env (handleSaveTextToFile AppJs iPhone sandbox (final first))
      (final first) in
  extractedText (final first) = extractedText invoiceRecord /\
  writes (events first)
    = [(lit "/data/files/ocr_result_1700000000000.txt", invoice, lit "utf8")] /\
  writes (events second) = writes (events first) /\
  written (events first ++ events second) ∅ = written (events first) ∅.
Proof. repeat split. Qed.

Lemma stored_both w w' files :
  w.1.1 <> w'.1.1 ->
  store ([w] ++ [w']) files !! w.1.1 = Some w.1.2 /\
  store ([w] ++ [w']) files !! w'.1.1 = Some w'.1.2.
Proof.
  intros NE. unfold store; simpl. split.
  - rewrite lookup_insert_ne by congruence. apply lookup_insert_eq.
  - apply lookup_insert_eq.
Qed.

(** C9, as the code has it: a run of [handleSaveTextToFile] makes at
    most one [RNFS.writeFile] call, with the text, the encoding utf8
    and a path that ends in ocr_result_<clock reading>.txt: none when
    the gate rejects the text nor, in src/App.js on Android with a
    downloads directory, when the storage permission is not granted
    (the run ends after the permission alert); exactly one off Android
    when the text passes the gate.  Two exports whose clock readings
    differ write to different paths, and both files are there
    afterwards. *)
Theorem export_names_follow_the_clock rev P RNFS captured env st :
  let run := exec env (handleSaveTextToFile rev P RNFS captured) st in
  (forall path contents encoding,
     In (Called (RNFS_writeFile path contents encoding)) (events run) ->
     textRejected (extractedText captured) = false /\
     contents = extractedText captured /\
     encoding = lit "utf8" /\
     exists dir,
       path = dir ++ lit "/" ++ lit "ocr_result_" ++ ofInt (clock env) ++ lit ".txt") /\
  (length (writes (events run)) <= 1)%nat /\
  (isAndroid P = false ->
   textRejected (extractedText captured) = false ->
   writes (events run)
   = [(exportPath (DocumentDirectoryPath RNFS) (clock env),
       extractedText captured, lit "utf8")]) /\
  (forall rev' P' RNFS' captured' env' st',
     clock env <> clock env' ->
     let run' := exec env' (handleSaveTextToFile rev' P' RNFS' captured') st' in
     forall path contents encoding path' contents' encoding' files,
       In (path, contents, encoding) (writes (events run)) ->
       In (path', contents', encoding') (writes (events run')) ->
       path <> path' /\
       written (events run ++ events run') files !! path = Some contents /\
       written (events run ++ events run') files !! path' = Some contents') /\
  (textRejected (extractedText captured) = true ->
   events run = [] /\ final run = st) /\
  (forall downloads settled,
     rev = AppJs ->
     isAndroid P = true ->
     textRejected (extractedText captured) = false ->
     DownloadDirectoryPath RNFS = Some downloads ->
     truthy downloads = true ->
     answer env (PermissionsAndroid_request WRITE_EXTERNAL_STORAGE)
       = Some settled ->
     settled <> Fulfilled GRANTED ->
     events run
     = [Did (setSaveStatus None);
        Called (PermissionsAndroid_request WRITE_EXTERNAL_STORAGE);
        Did (Alert_alert (permissionDenied english) (storageRequired english))] /\
     writes (events run) = [] /\
     finished run = true).
Proof.
  intros run. subst run.
  split; [|split; [|split; [|split; [|split]]]].
  - intros path contents encoding H. apply writes_in in H.
    destruct (export_writes rev P RNFS captured env st)
      as [E|(R & dir & _ & E)]; rewrite E in H; [destruct H|].
    destruct H as [[= <- <- <-]|[]]. repeat split; trivial. now exists dir.
  - destruct (export_writes rev P RNFS captured env st)
      as [E|(R & dir & _ & E)]; rewrite E; simpl; lia.
  - intros A R. unfold handleSaveTextToFile. rewrite R.
    rewrite exec_act, events_after, writes_did.
    destruct rev; rewrite A; [destruct (DownloadDirectoryPath RNFS)|];
      apply writeExport_writes.
  - intros rev' P' RNFS' captured' env' st' NE run'
      path contents encoding path' contents' encoding' files H H'.
    subst run'.
    rewrite written_store, writes_app.
    destruct (export_writes rev P RNFS captured env st)
      as [E|(R & dir & _ & E)]; rewrite E in *; [destruct H|].
    destruct (export_writes rev' P' RNFS' captured' env' st')
      as [E'|(R' & dir' & _ & E')]; rewrite E' in *; [destruct H'|].
    destruct H as [[= <- <- <-]|[]], H' as [[= <- <- <-]|[]].
    assert (D : exportPath dir (clock env) <> exportPath dir' (clock env')).
    { intros Q. now apply exportPath_inj in Q. }
    split; [exact D|].
    now apply (stored_both (_, _, _) (_, _, _)).
  - intros R. unfold handleSaveTextToFile. rewrite R. split; reflexivity.
  - intros downloads settled -> A R D T E NG.
    unfold handleSaveTextToFile. rewrite R, D, A, T.
    cbn [andb]. rewrite exec_act, exec_bind, permission_run, E, andThen_done.
    destruct settled as [[]|err]; try (now destruct NG); repeat split.
Qed.

Lemma export_names_follow_the_clock_twice :
  let first :=
    exec (storingAt 1700000000000)
      (handleSaveTextToFile AppJs iPhone sandbox invoiceRecord) invoiceRecord in
  let second :=
    exec (storingAt 1700000000001)
      (handleSaveTextToFile AppJs iPhone sandbox invoiceRecord) invoiceRecord in
  let files := written (events first ++ events second) ∅ in
  files !! lit "/data/files/ocr_result_1700000000000.txt" = Some invoice /\
  files !! lit "/data/files/ocr_result_1700000000001.txt" = Some invoice.
Proof.
  exact (proj2 (proj1 (proj2 (proj2 (proj2
    (export_names_follow_the_clock AppJs iPhone sandbox invoiceRecord
       (storingAt 1700000000000) invoiceRecord))))
    AppJs iPhone sandbox invoiceRecord (storingAt 1700000000001) invoiceRecord
    ltac:(discriminate)
    (lit "/data/files/ocr_result_1700000000000.txt") invoice (lit "utf8")
    (lit "/data/files/ocr_result_1700000000001.txt") invoice (lit "utf8")
    ∅ ltac:(left; reflexivity) ltac:(left; reflexivity))).
Defined.

(** ** The scan history of [Part001] *)

(** The entry added by a finished run holds the text and the location
    of the render that started the acquisition, not the ones the run
    has just computed. *)
Lemma history_entry_holds_render_state P captured image env st :
  let run := exec env (processImageAndLocation Part001 P captured image) st in
  finished run = true ->
  history (final run)
  = {| entry_imageUri := image;
       entry_extractedText := extractedText captured;
       entry_location := location captured;
       entry_timestamp := clock env |} :: history st.
Proof.
  intros run. subst run. by_positioning Part001 P env;
    try (unfold finished; simpl; discriminate).
  all: by_recognition env image;
    try (unfold finished; simpl; discriminate).
  all: reflexivity.
Qed.

(** C7, on the code: the first scan of [Part001] recognises the
    invoice at the reported position, and its history entry records an
    empty text and no location. *)
Example history_entry_is_stale :
  let env :=
    scenario (Some (Fulfilled GRANTED)) (Some (picked (lit "scan.jpg")))
      (Some (successCallback newYork)) (Some (read invoice)) None
      1700000000000 in
  let run := exec env (acquire Part001 pixel camera initialState) initialState in
  finished run = true /\
  extractedText (final run) = invoice /\
  location (final run) = Some (locOf newYork) /\
  history (final run)
  = [{| entry_imageUri := lit "scan.jpg";
        entry_extractedText := [];
        entry_location := None;
        entry_timestamp := 1700000000000 |}].
Proof. repeat split. Qed.

(** ** Late answers *)

(** The first photo's text arrives after the second photo has replaced
    it: it is shown against the second photo, whose own processing is
    still waiting for its position, and the loading flag goes down. *)
Lemma late_answer_shown_on_new_photo :
  map pending (tasks recognising) = [recognize firstPhoto] /\
  imageUri (state superseded) = Some secondPhoto /\
  extractedText (state superseded) = [] /\
  loading (state superseded) = true /\
  map pending (tasks superseded) = [recognize firstPhoto; positionQuery] /\
  imageUri (state lateAnswer) = Some secondPhoto /\
  extractedText (state lateAnswer) = invoice /\
  loading (state lateAnswer) = false /\
  map pending (tasks lateAnswer) = [positionQuery].
Proof. repeat split. Qed.

Lemma advance_silent t p w :
  state (advance t p w) = final (exec (silent t) p (state w)) /\
  trace (advance t p w) = trace w ++ events (exec (silent t) p (state w)).
Proof.
  revert w; induction p as [a|a k IH|k IH|r k IH]; intros w; simpl.
  - now rewrite app_nil_r.
  - destruct (IH {| state := apply a (state w);
                    trace := trace w ++ [Did a];
                    tasks := tasks w |}) as [S T].
    simpl in S, T. rewrite S, T. now rewrite <- app_assoc.
  - apply IH.
  - split; reflexivity.
Qed.

(** C3, as the code has it: there is no generation counter or
    cancellation token.  Whatever the state of the component --
    whichever image it shows -- when the recogniser's call of a run of
    [processImageAndLocation] settles, its outcome is written to the
    text cell and the loading flag is lowered, and when its position
    query reports a fix, the fix is written to the location cell. *)
Theorem settled_results_are_applied rev captured image w i x t :
  (tasks w !! i = Some (recognitionTask rev captured image) ->
   let w' := settle i x t w in
   extractedText (state w')
     = shown (messages rev) (outcomeOf (messages rev) (x (recognize image))) /\
   loading (state w') = false /\
   imageUri (state w') = imageUri (state w)) /\
  (tasks w !! i = Some (positionTask rev captured image) ->
   forall position, x positionQuery = successCallback position ->
   let w' := settle i x t w in
   location (state w') = Some (locOf position) /\
   imageUri (state w') = imageUri (state w)).
Proof.
  split.
  - intros T w'. subst w'. unfold settle. rewrite T.
    unfold recognitionTask, resume, pending.
    rewrite (proj1 (advance_silent _ _ _)). simpl state.
    rewrite exec_bind, onRecognized_run, andThen_done, exec_act.
    destruct rev; repeat split.
  - intros T position E w'. subst w'. unfold settle. rewrite T.
    unfold positionTask, resume, pending. rewrite E.
    rewrite (proj1 (advance_silent _ _ _)). simpl state.
    repeat split.
Qed.

Lemma settled_results_are_applied_late :
  tasks superseded !! 0%nat
    = Some (recognitionTask AppJs initialState firstPhoto) /\
  extractedText (state lateAnswer) = invoice /\
  loading (state lateAnswer) = false /\
  imageUri (state lateAnswer) = imageUri (state superseded).
Proof.
  split; [reflexivity|].
  exact (proj1
    (settled_results_are_applied AppJs initialState firstPhoto superseded 0%nat
       (answering (picked firstPhoto) (errorCallback 0) (read invoice)) 5)
    eq_refl).
Defined.

(** ** More on the processing *)

(** What a run of [processImageAndLocation] leaves alone, and what it
    shows. *)
Lemma processing_frame rev P captured image env st :
  let run := exec env (processImageAndLocation rev P captured image) st in
  imageUri (final run) = imageUri st /\
  imageSource (final run) = imageSource st /\
  saveStatus (final run) = saveStatus st /\
  copyStatus (final run) = copyStatus st /\
  forallb processingEvent (events run) = true.
Proof.
  intros run. subst run. by_positioning rev P env.
  all: by_recognition env image.
  all: destruct rev; simpl; rewrite ?forallb_app; unfold asked;
    destruct (isAndroid P); simpl; auto.
Qed.

(** A run of [processImageAndLocation], finished or not, raises no
    alert and writes only the loading, text, location and history
    cells; its calls are, in this order and each at most once, among
    the location permission request (on Android), the position query
    and the recogniser for the image it was given. *)
Theorem processing_keeps_to_its_cells rev P captured image env st :
  let run := exec env (processImageAndLocation rev P captured image) st in
  imageUri (final run) = imageUri st /\
  imageSource (final run) = imageSource st /\
  saveStatus (final run) = saveStatus st /\
  copyStatus (final run) = copyStatus st /\
  forallb processingEvent (events run) = true /\
  existsb isAlert (events run) = false /\
  sublist (calls (events run))
    (asked P ++ [Called positionQuery; Called (recognize image)]).
Proof.
  intros run. subst run. by_positioning rev P env.
  all: by_recognition env image.
  all: unfold calls;
    destruct rev; simpl; rewrite ?forallb_app, ?existsb_app, ?filter_app;
    unfold asked; destruct (isAndroid P); try discriminate; simpl;
    repeat split; auto.
  all: repeat first [apply sublist_nil | apply sublist_skip | apply sublist_cons].
Qed.

(** When the position query is reached -- off Android always, on
    Android once the location permission request returned GRANTED --
    and the service reports a fix, the location cell holds the
    latitude and longitude of that fix from then on: the recogniser's
    answer, or its silence, does not change it. *)
Theorem fix_is_recorded rev P captured image env st position :
  (isAndroid P = true ->
   answer env locationPermission = Some (Fulfilled GRANTED)) ->
  answer env positionQuery = Some (successCallback position) ->
  let run := exec env (processImageAndLocation rev P captured image) st in
  let reported :=
    {| latitude := latitude (coords position);
       longitude := longitude (coords position) |} in
  location (final run) = Some reported /\
  In (Did (setLocation (Some reported))) (events run) /\
  (finished run = true <-> answer env (recognize image) <> None).
Proof.
  intros Q E run reported. subst run reported. fold (locOf position).
  by_positioning rev P env; contradictory.
  all: assert (position0 = position) as -> by congruence.
  all: by_recognition env image.
  all: unfold finished; destruct rev; simpl; rewrite ?in_app_iff; simpl;
    repeat split; auto 12; try congruence; try discriminate; tauto.
Qed.

#[warnings="-inexact-float"]
Lemma fix_is_recorded_while_recognising :
  let env :=
    scenario (Some (Fulfilled GRANTED)) None (Some (successCallback newYork))
      None None 0 in
  let run :=
    exec env (processImageAndLocation Part001 pixel initialState firstPhoto)
      initialState in
  location (final run) = Some {| latitude := 40.71; longitude := -74 |} /\
  finished run = false.
Proof.
  intros env run.
  destruct (fix_is_recorded Part001 pixel initialState firstPhoto env
              initialState newYork (fun _ => eq_refl) eq_refl) as (L & _ & F).
  split; [exact L|reflexivity].
Defined.

(** ** The scan history *)

(** src/App.js keeps no history.  In part_001 a run adds nothing until
    it finishes, and a finished run adds exactly one entry, in front:
    the processed image, the clock reading, and the text and location
    of the render that started the acquisition. *)
Theorem history_grows_by_one_entry rev P captured image env st :
  let run := exec env (processImageAndLocation rev P captured image) st in
  history (final run) =
  match rev with
  | AppJs => history st
  | Part001 =>
      if finished run
      then {| entry_imageUri := image;
              entry_extractedText := extractedText captured;
              entry_location := location captured;
              entry_timestamp := clock env |} :: history st
      else history st
  end.
Proof.
  intros run. subst run. by_positioning rev P env.
  all: by_recognition env image.
  all: destruct rev; reflexivity.
Qed.

(** ** Acquisition, after the permission *)

Lemma afterAll_after {A} e evs (run : Run A) :
  after e (afterAll evs run) = afterAll (e :: evs) run.
Proof. reflexivity. Qed.

Lemma after_as_afterAll {A} e (run : Run A) : after e run = afterAll [e] run.
Proof. reflexivity. Qed.

Lemma afterAll_afterAll {A} evs1 evs2 (run : Run A) :
  afterAll evs1 (afterAll evs2 run) = afterAll (evs1 ++ evs2) run.
Proof. unfold afterAll; simpl. now rewrite app_assoc. Qed.

Lemma choosing_run rev P src captured env st :
  exec env (choosing rev P src captured) st =
  match chosen env src with
  | Some response =>
      after (Called (chooserOf src))
        (exec env (onPicked rev P captured src response) st)
  | None =>
      {| events := [Called (chooserOf src)]; final := st;
         outcome := WaitingOn (chooserOf src) |}
  end.
Proof. destruct src; reflexivity. Qed.

(** Once the permission does not stand in the way, an acquisition is
    the reset, the permission request if any, and the chooser with its
    callback. *)
Lemma acquire_run rev P src captured env st :
  allowed P env (permissionOf src) ->
  exec env (acquire rev P src captured) st =
  afterAll (map Did resetActions ++ asking P (permissionOf src))
    (exec env (choosing rev P src captured) (cleared st)).
Proof.
  intros A. unfold allowed, asking in *.
  destruct src; unfold acquire, handleTakePhoto, handleSelectFromGallery;
    rewrite exec_reset; cbv zeta.
  1: change (response ← await launchCamera;
             onPicked rev P captured camera response)
       with (choosing rev P camera captured).
  2: change (response ← await launchImageLibrary;
             onPicked rev P captured gallery response)
       with (choosing rev P gallery captured).
  all: destruct (isAndroid P).
  all: try (rewrite exec_bind, permission_run; simpl permissionOf in A;
            rewrite (A eq_refl), andThen_done; cbn [negb]).
  all: rewrite !after_as_afterAll, !afterAll_afterAll; try reflexivity.
  all: unfold afterAll; simpl; now rewrite <- ?app_assoc.
Qed.

(** When the user cancels the chooser, or the chooser returns without
    an error and without an asset, the acquisition ends in silence: no
    alert, no processing, the cleared state. *)
Theorem cancelled_acquisition_is_silent rev P src captured env st response :
  allowed P env (permissionOf src) ->
  chosen env src = Some response ->
  didCancel response = true
  \/ (truthy_opt (errorCode response) = false /\
      (assets response = None \/ assets response = Some [])) ->
  let run := exec env (acquire rev P src captured) st in
  events run = untilChooser P src /\
  final run = cleared st /\
  finished run = true.
Proof.
  intros A C H run. subst run.
  rewrite (acquire_run _ _ _ _ _ _ A), choosing_run, C.
  unfold onPicked, untilChooser.
  unfold asking. destruct (didCancel response).
  - destruct (isAndroid P); repeat split.
  - destruct H as [H|[E H]]; [discriminate|]. rewrite E.
    destruct H as [-> | ->]; destruct (isAndroid P); repeat split.
Qed.

Lemma cancelled_acquisition_is_silent_on_pixel :
  let cancelled :=
    {| didCancel := true; errorCode := None; errorMessage := None;
       assets := None |} in
  let env := scenario (Some (Fulfilled GRANTED)) (Some cancelled) None None None 0 in
  let run := exec env (acquire Part001 pixel gallery invoiceRecord) invoiceRecord in
  events run
  = [Did (setSaveStatus None); Did (setCopyStatus None);
     Did (setExtractedText []); Did (setLocation None);
     Did (setImageUri None); Did (setImageSource None);
     Called (PermissionsAndroid_request READ_EXTERNAL_STORAGE);
     Called launchImageLibrary] /\
  final run = initialState /\
  finished run = true.
Proof.
  apply (cancelled_acquisition_is_silent Part001 pixel gallery invoiceRecord
           (scenario (Some (Fulfilled GRANTED))
              (Some {| didCancel := true; errorCode := None;
                       errorMessage := None; assets := None |})
              None None None 0)
           invoiceRecord
           {| didCancel := true; errorCode := None; errorMessage := None;
              assets := None |}).
  - intros _. reflexivity.
  - reflexivity.
  - left. reflexivity.
Defined.

(** A chooser error that is not a cancellation is reported in one
    alert, titled by the source, with the chooser's message or, when it
    has none, the "unknown error" text; nothing is processed and the
    state stays cleared, even if the response also carries assets. *)
Theorem chooser_error_is_alerted rev P src captured env st response :
  allowed P env (permissionOf src) ->
  chosen env src = Some response ->
  didCancel response = false ->
  truthy_opt (errorCode response) = true ->
  let run := exec env (acquire rev P src captured) st in
  events run
  = untilChooser P src
    ++ [Did (Alert_alert (chooserError (messages rev) src)
               (orElse (errorMessage response) (unknownError (messages rev))))] /\
  final run = cleared st /\
  finished run = true.
Proof.
  intros A C NC E run. subst run.
  rewrite (acquire_run _ _ _ _ _ _ A), choosing_run, C.
  unfold onPicked, untilChooser, asking. rewrite NC, E.
  destruct src, (isAndroid P); repeat split.
Qed.

Lemma chooser_error_is_alerted_on_iPhone :
  let failed :=
    {| didCancel := false; errorCode := Some (lit "camera_unavailable");
       errorMessage := Some (lit "No camera");
       assets := Some [{| uri := firstPhoto |}] |} in
  let env := scenario None (Some failed) None None None 0 in
  let run := exec env (acquire AppJs iPhone camera initialState) initialState in
  events run
  = [Did (setSaveStatus None); Did (setCopyStatus None);
     Did (setExtractedText []); Did (setLocation None);
     Did (setImageUri None); Did (setImageSource None);
     Called launchCamera;
     Did (Alert_alert (lit "Camera Error") (lit "No camera"))] /\
  final run = initialState /\
  finished run = true.
Proof.
  apply (chooser_error_is_alerted AppJs iPhone camera initialState
           (scenario None
              (Some {| didCancel := false;
                       errorCode := Some (lit "camera_unavailable");
                       errorMessage := Some (lit "No camera");
                       assets := Some [{| uri := firstPhoto |}] |})
              None None None 0)
           initialState
           {| didCancel := false; errorCode := Some (lit "camera_unavailable");
              errorMessage := Some (lit "No camera");
              assets := Some [{| uri := firstPhoto |}] |}).
  - intros A. discriminate.
  - reflexivity.
  - reflexivity.
  - reflexivity.
Defined.

(** When the chooser returns assets, the first one becomes the image
    of the record, with the source as its provenance, and the rest of
    the acquisition is the processing of exactly that image: its
    events follow, and its final state and outcome are the
    acquisition's. *)
Theorem picked_image_is_processed rev P src captured env st response asset others :
  allowed P env (permissionOf src) ->
  chosen env src = Some response ->
  didCancel response = false ->
  truthy_opt (errorCode response) = false ->
  assets response = Some (asset :: others) ->
  let run := exec env (acquire rev P src captured) st in
  let showing :=
    apply (setImageSource (Some src))
      (apply (setImageUri (Some (uri asset))) (cleared st)) in
  let processing :=
    exec env (processImageAndLocation rev P captured (uri asset)) showing in
  events run
  = untilChooser P src
    ++ [Did (setImageUri (Some (uri asset))); Did (setImageSource (Some src))]
    ++ events processing /\
  final run = final processing /\
  outcome run = outcome processing /\
  imageUri (final run) = Some (uri asset) /\
  imageSource (final run) = Some src.
Proof.
  intros A C NC NE AS run showing processing. subst run.
  rewrite (acquire_run _ _ _ _ _ _ A), choosing_run, C.
  unfold onPicked, untilChooser. rewrite NC, NE, AS.
  rewrite !exec_act. fold showing. fold processing.
  destruct (processing_frame rev P captured (uri asset) env showing)
    as (I & S & _).
  fold processing in I, S.
  split; [unfold asking; destruct (isAndroid P); reflexivity|].
  split; [reflexivity|]. split; [reflexivity|]. split.
  - change (imageUri (final processing) = Some (uri asset)). now rewrite I.
  - change (imageSource (final processing) = Some src). now rewrite S.
Qed.

Lemma picked_image_is_processed_on_iPhone :
  let response :=
    {| didCancel := false; errorCode := None; errorMessage := None;
       assets := Some [{| uri := firstPhoto |}; {| uri := secondPhoto |}] |} in
  let env := scenario None (Some response) (Some (errorCallback 1))
               (Some (read invoice)) None 0 in
  let run := exec env (acquire AppJs iPhone gallery initialState) initialState in
  imageUri (final run) = Some firstPhoto /\
  imageSource (final run) = Some gallery.
Proof.
  refine (proj2 (proj2 (proj2
    (picked_image_is_processed AppJs iPhone gallery initialState
       (scenario None
          (Some {| didCancel := false; errorCode := None; errorMessage := None;
                   assets := Some [{| uri := firstPhoto |};
                                   {| uri := secondPhoto |}] |})
          (Some (errorCallback 1)) (Some (read invoice)) None 0)
       initialState
       {| didCancel := false; errorCode := None; errorMessage := None;
          assets := Some [{| uri := firstPhoto |}; {| uri := secondPhoto |}] |}
       {| uri := firstPhoto |} [{| uri := secondPhoto |}] _ _ _ _ _)))).
  - intros A. discriminate.
  - reflexivity.
  - reflexivity.
  - reflexivity.
  - reflexivity.
Defined.

(** ** The result actions, outcome by outcome *)

Ltac crunch_answers :=
  repeat (simpl; match goal with
  | |- context [answer ?e ?r] => destruct (answer e r) as [?|]
  | |- context [match ?x with Fulfilled _ => _ | Rejected _ => _ end] =>
      destruct x
  | |- context [match ?x with GRANTED => _ | DENIED => _ | NEVER_ASK_AGAIN => _ end] =>
      destruct x
  end).

Lemma sameRecord_refl st : sameRecord st st.
Proof. repeat split. Qed.

(** The four result actions write at most the two status cells: the
    image, its provenance, the text, the location, the loading flag
    and the history are what they were, whatever the collaborators
    answer; the share action writes nothing at all. *)
Theorem actions_keep_the_record rev P RNFS captured env st :
  sameRecord st (final (exec env (handleSavePhoto rev P captured) st)) /\
  final (exec env (handleShareText rev captured) st) = st /\
  sameRecord st (final (exec env (handleCopyText rev captured) st)) /\
  sameRecord st (final (exec env (handleSaveTextToFile rev P RNFS captured) st)).
Proof.
  split; [|split; [|split]].
  - unfold handleSavePhoto.
    destruct (imageUri captured) as [image|]; [|apply sameRecord_refl].
    destruct (negb (truthy image) || negb (isCamera (imageSource captured)));
      [apply sameRecord_refl|].
    destruct (isAndroid P); unfold requestAndroidPermission;
      crunch_answers; repeat split.
  - unfold handleShareText.
    destruct (textRejected (extractedText captured)); [reflexivity|].
    crunch_answers; reflexivity.
  - unfold handleCopyText.
    destruct (textRejected (extractedText captured)); [apply sameRecord_refl|].
    crunch_answers; repeat split.
  - unfold handleSaveTextToFile, writeExport, requestAndroidPermission.
    destruct (textRejected (extractedText captured)); [apply sameRecord_refl|].
    destruct rev, (isAndroid P), (DownloadDirectoryPath RNFS) as [d|];
      try destruct (truthy d); try destruct (Version P >=? 30);
      crunch_answers; repeat split.
Qed.

(** Saving a camera photo.  On Android a refused storage permission
    ends it with the permission alert, the camera roll is not called
    and no status is set.  Otherwise the camera roll is called once
    with the image; success sets the status "Photo saved to gallery."
    and failure the status "Failed to save photo.", each with its
    alert. *)
Theorem save_photo_outcomes rev P captured env st image :
  imageUri captured = Some image ->
  truthy image = true ->
  imageSource captured = Some camera ->
  let run := exec env (handleSavePhoto rev P captured) st in
  let M := messages rev in
  let ask := PermissionsAndroid_request WRITE_EXTERNAL_STORAGE in
  (forall settled,
     isAndroid P = true ->
     answer env ask = Some settled ->
     settled <> Fulfilled GRANTED ->
     events run
     = [Did (setSaveStatus None); Called ask;
        Did (Alert_alert (permissionDenied M) (storageRequired M))] /\
     saves (events run) = [] /\
     saveStatus (final run) = None) /\
  (forall done,
     allowed P env WRITE_EXTERNAL_STORAGE ->
     answer env (CameraRoll_save image) = Some (Fulfilled done) ->
     events run
     = Did (setSaveStatus None) :: asking P WRITE_EXTERNAL_STORAGE
       ++ [Called (CameraRoll_save image);
           Did (setSaveStatus (Some (lit "Photo saved to gallery.")));
           Did (Alert_alert (success M) (photoSaved M))] /\
     saveStatus (final run) = Some (lit "Photo saved to gallery.")) /\
  (forall err,
     allowed P env WRITE_EXTERNAL_STORAGE ->
     answer env (CameraRoll_save image) = Some (Rejected err) ->
     events run
     = Did (setSaveStatus None) :: asking P WRITE_EXTERNAL_STORAGE
       ++ [Called (CameraRoll_save image);
           Did (setSaveStatus (Some (lit "Failed to save photo.")));
           Did (Alert_alert (error M)
                  (failedToSavePhoto M ++ orElse (message err) (unknownError M)))] /\
     saveStatus (final run) = Some (lit "Failed to save photo.")).
Proof.
  intros I T C run M ask. subst run M ask.
  unfold handleSavePhoto, allowed, asking. rewrite I, T, C.
  cbn [negb orb isCamera]. rewrite exec_act. cbv zeta.
  split; [|split].
  - intros settled A E NG. rewrite A, exec_bind, permission_run, E, andThen_done.
    destruct settled as [[]|err]; try (now destruct NG); repeat split.
  - intros done A E.
    destruct (isAndroid P).
    + rewrite exec_bind, permission_run, (A eq_refl), andThen_done.
      cbv beta; cbn [negb]. rewrite exec_bind, (exec_await env (CameraRoll_save image)), E, andThen_done.
      repeat split.
    + rewrite exec_bind, (exec_await env (CameraRoll_save image)), E, andThen_done. repeat split.
  - intros err A E.
    destruct (isAndroid P).
    + rewrite exec_bind, permission_run, (A eq_refl), andThen_done.
      cbv beta; cbn [negb]. rewrite exec_bind, (exec_await env (CameraRoll_save image)), E, andThen_done.
      repeat split.
    + rewrite exec_bind, (exec_await env (CameraRoll_save image)), E, andThen_done. repeat split.
Qed.

Lemma save_photo_outcomes_refused :
  let env := scenario (Some (Fulfilled DENIED)) None None None
               (Some (Fulfilled tt)) 0 in
  let record := scanned camera firstPhoto invoice in
  let run := exec env (handleSavePhoto AppJs pixel record) record in
  let ask := PermissionsAndroid_request WRITE_EXTERNAL_STORAGE in
  events run
  = [Did (setSaveStatus None); Called ask;
     Did (Alert_alert (permissionDenied english) (storageRequired english))] /\
  saves (events run) = [] /\
  saveStatus (final run) = None.
Proof.
  intros env record run ask.
  exact (proj1
    (save_photo_outcomes AppJs pixel record env record firstPhoto
       eq_refl eq_refl eq_refl)
    (Fulfilled DENIED) eq_refl eq_refl ltac:(discriminate)).
Defined.




(** ** The permission helper *)

(** [requestAndroidPermission] makes one request and never throws: it
    returns [true] exactly when the request returns GRANTED, [false]
    on every other status and when the request itself fails, and it
    touches no state. *)
Theorem permission_is_granted_only_by_GRANTED permission env st :
  let run := exec env (requestAndroidPermission permission) st in
  let ask := PermissionsAndroid_request permission in
  events run = [Called ask] /\
  final run = st /\
  (outcome run = Done true <-> answer env ask = Some (Fulfilled GRANTED)) /\
  (outcome run = Done false <->
   exists settled, answer env ask = Some settled /\ settled <> Fulfilled GRANTED) /\
  (finished run = true <-> answer env ask <> None).
Proof.
  intros run ask. subst run ask. rewrite permission_run.
  destruct (answer env (PermissionsAndroid_request permission))
    as [[[]|err]|]; unfold finished; simpl; repeat split;
    try discriminate; try congruence; eauto.
  all: try (intros (s & [= <-] & N); congruence).
  all: try (intros _; eexists; split; [reflexivity|discriminate]).
  all: try (intros (s & [=] & _)).
  all: try (intros N; now destruct N).
Qed.

(** ** Sharing and copying *)

(** A text that passes the gate is handed to the share sheet, once and
    unchanged.  A fulfilled share -- sent or dismissed -- ends the
    handler in silence; a rejected one raises one alert with the
    error's message or, when it has none, the "unknown error" text.
    No state cell is written. *)
Theorem share_hands_over_the_text rev captured env st :
  textRejected (extractedText captured) = false ->
  let run := exec env (handleShareText rev captured) st in
  let share := Share_share (extractedText captured) in
  calls (events run) = [Called share] /\
  final run = st /\
  (forall done, answer env share = Some (Fulfilled done) ->
     events run = [Called share] /\ finished run = true) /\
  (forall err, answer env share = Some (Rejected err) ->
     events run
     = [Called share;
        Did (Alert_alert (error (messages rev))
               (failedToShare (messages rev)
                ++ orElse (message err) (unknownError (messages rev))))] /\
     finished run = true).
Proof.
  intros R run share. subst run share. unfold handleShareText. rewrite R.
  rewrite exec_bind, (exec_await env (Share_share (extractedText captured))).
  destruct (answer env (Share_share (extractedText captured)))
    as [[done|err]|];
    (split; [reflexivity|split; [reflexivity|split]]);
    intros ? E; try discriminate; injection E as <-; split; reflexivity.
Qed.

Lemma share_hands_over_the_text_rejected :
  let env :=
    scenario None None None None
      (Some (Rejected {| message := Some (lit "No apps") |})) 0 in
  let run := exec env (handleShareText AppJs invoiceRecord) invoiceRecord in
  events run
  = [Called (Share_share invoice);
     Did (Alert_alert (lit "Error") (lit "Failed to share text: No apps"))] /\
  finished run = true.
Proof.
  intros env run.
  exact (proj2 (proj2 (proj2
    (share_hands_over_the_text AppJs invoiceRecord env invoiceRecord eq_refl)))
    {| message := Some (lit "No apps") |} eq_refl).
Defined.



(** One press of the copy button, on a text that passes the gate. *)
Lemma copy_press rev t w :
  textRejected (extractedText (state w)) = false ->
  press (handleCopyText rev) t w
  = {| state := apply (setCopyStatus (Some (copied (messages rev)))) (state w);
       trace := ((trace w ++ [Did (Clipboard_setString (extractedText (state w)))])
                 ++ [Did (setCopyStatus (Some (copied (messages rev))))])
                ++ [Called (setTimeout 1500)];
       tasks := tasks w
                ++ [{| pending := setTimeout 1500;
                       resume := fun _ => act (setCopyStatus None) |}] |}.
Proof.
  intros R. unfold press, handleCopyText. rewrite R. reflexivity.
Qed.

(** Two copies in a row leave two timers pending, and the timer of the
    first clears the confirmation of the second: the callback clears
    the copy status whoever set it, so the second confirmation is gone
    while its own timer is still pending. *)
Theorem early_timer_clears_later_confirmation rev w t1 t2 t3 x :
  tasks w = [] ->
  textRejected (extractedText (state w)) = false ->
  let twice := press (handleCopyText rev) t2 (press (handleCopyText rev) t1 w) in
  let fired := settle 0 x t3 twice in
  map pending (tasks twice) = [setTimeout 1500; setTimeout 1500] /\
  copyStatus (state twice) = Some (copied (messages rev)) /\
  copyStatus (state fired) = None /\
  map pending (tasks fired) = [setTimeout 1500].
Proof.
  intros E R twice fired. subst twice fired.
  rewrite (copy_press rev t1 w R), copy_press by exact R.
  cbn [state tasks]. rewrite E. repeat split.
Qed.

Lemma early_timer_clears_later_confirmation_twice :
  let w := {| state := invoiceRecord; trace := []; tasks := [] |} in
  let twice := press (handleCopyText AppJs) 200 (press (handleCopyText AppJs) 0 w) in
  let fired := settle 0 (answering (picked firstPhoto) (errorCallback 0) (read [])) 1500 twice in
  map pending (tasks twice) = [setTimeout 1500; setTimeout 1500] /\
  copyStatus (state twice) = Some (lit "Copied!") /\
  copyStatus (state fired) = None /\
  map pending (tasks fired) = [setTimeout 1500].
Proof.
  exact (early_timer_clears_later_confirmation AppJs
           {| state := invoiceRecord; trace := []; tasks := [] |} 0 200 1500
           (answering (picked firstPhoto) (errorCallback 0) (read []))
           eq_refl eq_refl).
Defined.

(** ** The mount effect *)

(** The effect run at mount writes no state.  Off Android it does
    nothing.  On Android it asks for the location permission only when
    the check reports that it is not held, and raises its alert only
    when that request does not return GRANTED; a failing check ends it
    in silence. *)
Theorem mount_asks_only_when_needed rev P env held st :
  let startup := mount env held (checkAndRequestLocationPermission rev P) st in
  let required :=
    Did (Alert_alert (lit "Permission Required") (permissionRequired rev)) in
  startup.2 = st /\
  (isAndroid P = false -> startup.1 = []) /\
  (held = Some (Fulfilled true) -> startup.1 = []) /\
  (forall err, held = Some (Rejected err) -> startup.1 = []) /\
  (held = None -> startup.1 = []) /\
  (isAndroid P = true -> held = Some (Fulfilled false) ->
   (answer env locationPermission = None ->
    startup.1 = [Called locationPermission]) /\
   (answer env locationPermission = Some (Fulfilled GRANTED) ->
    startup.1 = [Called locationPermission]) /\
   (forall settled,
      answer env locationPermission = Some settled ->
      settled <> Fulfilled GRANTED ->
      startup.1 = [Called locationPermission; required])).
Proof.
  intros startup required. subst startup required.
  unfold checkAndRequestLocationPermission, mount, locationPermission.
  destruct (isAndroid P); [|repeat split; intros; congruence].
  destruct held as [[[]|err]|]; cbn [negb].
  1,3,4: repeat split; intros; congruence.
  rewrite exec_bind, permission_run.
  destruct (answer env (PermissionsAndroid_request ACCESS_FINE_LOCATION))
    as [[[]|err]|]; rewrite ?andThen_done, ?andThen_waiting;
    repeat split; intros; try congruence.
  all: match goal with
       | N : _ <> _ |- _ => try (now destruct N)
       | _ => idtac
       end.
  all: match goal with
       | H : Some _ = Some ?s, N : ?s <> _ |- _ =>
           injection H as <-; try (now destruct N)
       | _ => idtac
       end.
Qed.

(** ** What is shown, and what the handlers accept *)

Lemma text_actions_shown rev st :
  showsTextActions (render rev st) = negb (textRejected (extractedText st)).
Proof.
  unfold render, textRejected; cbn [showsTextActions].
  now rewrite !negb_orb, negb_involutive.
Qed.

(** The three text buttons are shown exactly when the gate of their
    handlers lets the text through, and the save button exactly when
    [handleSavePhoto] goes past its guard: the handler of a button that
    is not shown would do nothing, and the handler of a shown save
    button starts by clearing the save status.  The fix and the "not
    available" note are never shown together, and the note is not
    shown while loading. *)
Theorem buttons_follow_the_gates rev P RNFS env rendered st :
  let view := render rev rendered in
  showsTextActions view = negb (textRejected (extractedText rendered)) /\
  (showsTextActions view = false ->
   exec env (handleShareText rev rendered) st = idle st /\
   exec env (handleCopyText rev rendered) st = idle st /\
   exec env (handleSaveTextToFile rev P RNFS rendered) st = idle st) /\
  (showsSaveButton view = false ->
   exec env (handleSavePhoto rev P rendered) st = idle st) /\
  (showsSaveButton view = true ->
   exists rest,
     events (exec env (handleSavePhoto rev P rendered) st)
     = Did (setSaveStatus None) :: rest) /\
  showsLocation view && showsNoLocation view = false /\
  (showsLoading view = true -> showsNoLocation view = false).
Proof.
  intros view. subst view.
  pose proof (text_actions_shown rev rendered) as G.
  split; [exact G|]. split; [|split; [|split; [|split]]].
  - rewrite G. intros R. apply negb_false_iff in R.
    unfold handleShareText, handleCopyText, handleSaveTextToFile.
    now rewrite R.
  - unfold render; cbn [showsSaveButton]. unfold handleSavePhoto.
    destruct (imageUri rendered) as [image|]; [|reflexivity].
    cbn [truthy_opt]. intros H.
    destruct (truthy image), (isCamera (imageSource rendered));
      try discriminate; reflexivity.
  - unfold render; cbn [showsSaveButton]. unfold handleSavePhoto.
    destruct (imageUri rendered) as [image|]; [|discriminate].
    cbn [truthy_opt]. intros H. apply andb_true_iff in H as [-> ->].
    cbn [negb orb]. rewrite exec_act. eexists. reflexivity.
  - unfold render; cbn [showsLocation showsNoLocation].
    now destruct (location rendered).
  - unfold render; cbn [showsLoading showsNoLocation]. intros ->.
    now rewrite andb_false_r.
Qed.

(** The gate reads the text, not the outcome: a recognised text that
    starts with "No text" or "OCR failed" is stored as it was read, and
    then its text buttons are not shown and the three text actions do
    nothing with it. *)
Theorem recognised_text_can_be_rejected rev P RNFS captured image env st content :
  blank content = false ->
  startsWith content (lit "No text") = true
  \/ startsWith content (lit "OCR failed") = true ->
  answer env (recognize image) = Some (read content) ->
  let run := exec env (processImageAndLocation rev P captured image) st in
  finished run = true ->
  outcomeOf (messages rev) (read content) = Recognized content /\
  extractedText (final run) = content /\
  showsTextActions (render rev (final run)) = false /\
  forall env' st',
    exec env' (handleShareText rev (final run)) st' = idle st' /\
    exec env' (handleCopyText rev (final run)) st' = idle st' /\
    exec env' (handleSaveTextToFile rev P RNFS (final run)) st' = idle st'.
Proof.
  intros B S E run F.
  assert (O : outcomeOf (messages rev) (read content) = Recognized content)
    by (simpl; now rewrite B).
  assert (T : extractedText (final run) = content).
  { subst run. revert F. by_positioning rev P env; try (simpl; discriminate).
    all: by_recognition env image; [|simpl; discriminate].
    all: injection E as ->; intros _; rewrite O.
    all: destruct rev; reflexivity. }
  assert (R : textRejected (extractedText (final run)) = true).
  { rewrite T. unfold textRejected.
    destruct S as [-> | ->]; now rewrite ?orb_true_r. }
  split; [exact O|]. split; [exact T|]. split.
  - now rewrite text_actions_shown, R.
  - intros env' st'.
    unfold handleShareText, handleCopyText, handleSaveTextToFile.
    now rewrite R.
Qed.

Lemma recognised_text_can_be_rejected_note :
  let content := lit "No text messages today" in
  let env :=
    scenario None None (Some (errorCallback 1)) (Some (read content)) None 0 in
  let run :=
    exec env (processImageAndLocation AppJs iPhone initialState firstPhoto)
      initialState in
  extractedText (final run) = lit "No text messages today" /\
  showsTextActions (render AppJs (final run)) = false /\
  exec (storingAt 0) (handleSaveTextToFile AppJs iPhone sandbox (final run))
    (final run) = idle (final run).
Proof.
  intros content env run.
  pose proof
    (recognised_text_can_be_rejected AppJs iPhone sandbox initialState firstPhoto
       env initialState content eq_refl (or_introl eq_refl) eq_refl eq_refl)
    as (_ & T & V & H).
  split; [exact T|]. split; [exact V|].
  exact (proj2 (proj2 (H (storingAt 0) (final run)))).
Defined.

(** ** The save status, as shown *)

(** The run of [handleSavePhoto] on a camera photo once the permission
    does not stand in the way. *)
Lemma savePhoto_run rev P captured env st image :
  imageUri captured = Some image ->
  truthy image = true ->
  imageSource captured = Some camera ->
  allowed P env WRITE_EXTERNAL_STORAGE ->
  let M := messages rev in
  let save := CameraRoll_save image in
  exec env (handleSavePhoto rev P captured) st =
  afterAll (Did (setSaveStatus None) :: asking P WRITE_EXTERNAL_STORAGE)
    match answer env save with
    | Some (Fulfilled _) =>
        {| events := [Called save;
                      Did (setSaveStatus (Some (lit "Photo saved to gallery.")));
                      Did (Alert_alert (success M) (photoSaved M))];
           final := apply (setSaveStatus (Some (lit "Photo saved to gallery.")))
                      (apply (setSaveStatus None) st);
           outcome := Done tt |}
    | Some (Rejected err) =>
        {| events := [Called save;
                      Did (setSaveStatus (Some (lit "Failed to save photo.")));
                      Did (Alert_alert (error M)
                             (failedToSavePhoto M
                              ++ orElse (message err) (unknownError M)))];
           final := apply (setSaveStatus (Some (lit "Failed to save photo.")))
                      (apply (setSaveStatus None) st);
           outcome := Done tt |}
    | None =>
        {| events := [Called save]; final := apply (setSaveStatus None) st;
           outcome := WaitingOn save |}
    end.
Proof.
  intros I T C A M save. subst M save.
  unfold handleSavePhoto, allowed, asking in *. rewrite I, T, C.
  cbn [negb orb isCamera]. rewrite exec_act. cbv zeta.
  destruct (isAndroid P).
  - rewrite exec_bind, permission_run, (A eq_refl), andThen_done.
    cbv beta; cbn [negb].
    rewrite exec_bind, (exec_await env (CameraRoll_save image)).
    destruct (answer env (CameraRoll_save image)) as [[done|err]|];
      reflexivity.
  - rewrite exec_bind, (exec_await env (CameraRoll_save image)).
    destruct (answer env (CameraRoll_save image)) as [[done|err]|];
      reflexivity.
Qed.

(** part_001 stores the status of a saved photo in English and
    translates it when it is shown: after [handleSavePhoto] the view
    shows "Fotografija je sačuvana u galeriji." when the camera roll
    took the photo and "Neuspešno čuvanje fotografije." when it
    failed, and nothing while the save is pending; src/App.js shows
    the stored status as it is. *)
Theorem photo_status_is_shown_translated rev P captured env st image :
  imageUri captured = Some image ->
  truthy image = true ->
  imageSource captured = Some camera ->
  allowed P env WRITE_EXTERNAL_STORAGE ->
  let run := exec env (handleSavePhoto rev P captured) st in
  let status := shownSaveStatus (render rev (final run)) in
  (forall done, answer env (CameraRoll_save image) = Some (Fulfilled done) ->
     saveStatus (final run) = Some (lit "Photo saved to gallery.") /\
     status = Some match rev with
                   | AppJs => lit "Photo saved to gallery."
                   | Part001 => lit "Fotografija je sačuvana u galeriji."
                   end) /\
  (forall err, answer env (CameraRoll_save image) = Some (Rejected err) ->
     saveStatus (final run) = Some (lit "Failed to save photo.") /\
     status = Some match rev with
                   | AppJs => lit "Failed to save photo."
                   | Part001 => lit "Neuspešno čuvanje fotografije."
                   end) /\
  (answer env (CameraRoll_save image) = None -> status = None).
Proof.
  intros I T C A run status. subst run status.
  rewrite (savePhoto_run rev P captured env st image I T C A). cbv zeta.
  destruct (answer env (CameraRoll_save image)) as [[done|err]|];
    (split; [|split]); intros; try discriminate.
  all: destruct rev; try split; vm_compute; reflexivity.
Qed.

Lemma photo_status_is_shown_translated_saved :
  let record := scanned camera firstPhoto invoice in
  let run := exec (storingAt 0) (handleSavePhoto Part001 iPhone record) record in
  saveStatus (final run) = Some (lit "Photo saved to gallery.") /\
  shownSaveStatus (render Part001 (final run))
  = Some (lit "Fotografija je sačuvana u galeriji.").
Proof.
  intros record run.
  exact (proj1
    (photo_status_is_shown_translated Part001 iPhone record (storingAt 0) record
       firstPhoto eq_refl eq_refl eq_refl ltac:(intros A; discriminate))
    tt eq_refl).
Defined.
